(** * StorageManager: the persistence facade of the SAP Migration Control Center

    A shallow embedding of [class StorageManager] (the storage source file)
    and of the parts of the browser platform it calls, followed by the
    properties the specification states about it.

    Modelling decisions, spelled out once:

    - JavaScript values are the JSON fragment ([value]); [undefined] is
      [None] in an [option value].  Numbers are integers ([Z]); integer
      results of [parseInt] and [+] are rounded to binary64 precision
      ([round53]); infinities and fractions are outside the model.
    - A string is the sequence of the bytes of its UTF-8 encoding, so a
      character outside ASCII takes two or three bytes.  The lower-case
      mapping of the platform ([String.prototype.toLowerCase], a table that
      grows with the version of Unicode) is a parameter of the searches.
    - Objects are association lists in insertion order; property lookup takes
      the first binding.
    - A string holding JSON text is a [text]: [Json v] is the text
      [JSON.stringify] produces for [v], and [JSON.parse] reads it back as
      [v]; [NotJson s] is a text [JSON.parse] rejects.
    - [localStorage] is a finite map from key names to texts.
    - The IndexedDB database is [None] until [initializeDB] has succeeded;
      an object store is the list of its records.  A transaction that has
      no request pending when control returns to the event loop finishes:
      the read-write transaction [saveData] opens before it awaits
      [clearStore] has finished when [saveData] goes on, so nothing can be
      added through it and its completion is never seen.
    - Every backend call may fail; which ones do is given by a fault oracle
      [faults] passed to each facade operation.
    - Asynchronous methods are computations in a state-and-exception monad:
      a rejected promise is [Throw], a resolved one [Ok], and one that
      never settles [Pending]. *)

From Stdlib Require Import ZArith Ascii String List Lia Bool Permutation.
From stdpp Require Import base option list gmap strings.

Set Warnings "-register-all".

Open Scope string_scope.
Open Scope list_scope.
Open Scope Z_scope.

(** ** JSON values *)

Inductive value : Type :=
| JNull
| JBool (b : bool)
| JNum (n : Z)
| JStr (s : string)
| JArr (items : list value)
| JObj (fields : list (string * value)).

(** A possibly [undefined] JavaScript value. *)
Abbreviation jsval := (option value).

(** Texts: what a JavaScript string holds when it is handed to [JSON.parse]. *)
Inductive text : Type :=
| Json (v : value)
| NotJson (s : string).

(** [ToBoolean]. *)
Definition truthy (v : value) : bool :=
  match v with
  | JNull => false
  | JBool b => b
  | JNum n => negb (n =? 0)
  | JStr s => negb (String.eqb s "")
  | JArr _ | JObj _ => true
  end.

Definition truthy_opt (o : jsval) : bool :=
  match o with
  | Some v => truthy v
  | None => false
  end.

(** [a === b].  Objects and arrays compare by reference; the two sides of
    every comparison in the facade come from different sources (a freshly
    parsed collection and a caller's argument), so they are never the same
    reference. *)
Definition strict_eq (a b : jsval) : bool :=
  match a, b with
  | None, None => true
  | Some JNull, Some JNull => true
  | Some (JBool x), Some (JBool y) => Bool.eqb x y
  | Some (JNum x), Some (JNum y) => x =? y
  | Some (JStr x), Some (JStr y) => String.eqb x y
  | _, _ => false
  end.

(** [Array.isArray]. *)
Definition isArray (v : value) : bool :=
  match v with
  | JArr _ => true
  | _ => false
  end.

(** Own-property lookup in an object literal. *)
Fixpoint assoc (k : string) (fields : list (string * value)) : jsval :=
  match fields with
  | [] => None
  | (k', v) :: rest => if String.eqb k k' then Some v else assoc k rest
  end.

(** ** Errors and results *)

Inductive error : Type :=
| TypeError
| SyntaxError
| NotFoundError
| TransactionInactiveError
| BackendFailure (what : string).

(** How a computation ends: with a value, with an error, or (an awaited
    promise that never settles) not at all.  Synchronous code ends in one of
    the first two ways. *)
Inductive result (A : Type) : Type :=
| Ok (a : A)
| Throw (e : error)
| Pending.
Arguments Ok {A} a.
Arguments Throw {A} e.
Arguments Pending {A}.

(** [v.k] for the property names the facade reads ([id], [status],
    [titulo], ...): none of them is defined on a prototype, so a primitive
    or an array yields [undefined]; reading a property of [null] throws. *)
Definition get_prop (v : value) (k : string) : result jsval :=
  match v with
  | JNull => Throw TypeError
  | JObj fields => Ok (assoc k fields)
  | _ => Ok None
  end.

(** ** Strings *)

Definition lower_ascii (c : ascii) : ascii :=
  let n := nat_of_ascii c in
  if (Nat.leb 65 n && Nat.leb n 90)%bool then ascii_of_nat (n + 32) else c.

(** [s.toLowerCase()] for a string [s] of ASCII characters, where every
    version of Unicode has the same mapping.  It is the mapping the examples
    are run with. *)
Fixpoint ascii_toLowerCase (s : string) : string :=
  match s with
  | EmptyString => EmptyString
  | String c rest => String (lower_ascii c) (ascii_toLowerCase rest)
  end.

(** [s.startsWith(p)]. *)
Fixpoint startsWith (p s : string) : bool :=
  match p, s with
  | EmptyString, _ => true
  | String a p', String b s' => (Ascii.eqb a b && startsWith p' s')%bool
  | String _ _, EmptyString => false
  end.

(** [s.includes(sub)]. *)
Fixpoint includes (sub s : string) : bool :=
  (startsWith sub s ||
   match s with
   | EmptyString => false
   | String _ rest => includes sub rest
   end)%bool.

(** The rest of [s] after [n] characters. *)
Fixpoint drop_chars (n : nat) (s : string) : string :=
  match n, s with
  | O, _ => s
  | S n', String _ rest => drop_chars n' rest
  | S _, EmptyString => EmptyString
  end.

(** [s.replace(p, '')] for a string that starts with [p]: the first
    occurrence of [p] is the prefix. *)
Definition remove_prefix (p s : string) : string :=
  drop_chars (String.length p) s.

(** [s.padStart(n, '0')]. *)
Definition padStart0 (n : nat) (s : string) : string :=
  String.concat "" (List.repeat "0" (n - String.length s)%nat) +:+ s.

(** ** Numbers *)

(** A mathematical integer rounded to the nearest binary64 number, ties to
    even: exact below [2^53], and a multiple of a power of two above. *)
Definition round53 (z : Z) : Z :=
  let a := Z.abs z in
  if a <? 2 ^ 53 then z
  else
    let e := Z.log2 a - 52 in
    let q := a / 2 ^ e in
    let r := a mod 2 ^ e in
    let half := 2 ^ (e - 1) in
    let q' := if r <? half then q
              else if half <? r then q + 1
              else if Z.even q then q else q + 1 in
    Z.sgn z * (q' * 2 ^ e).

(** [a + b] on numbers. *)
Definition js_add (a b : Z) : Z := round53 (a + b).

Definition digit_char (d : Z) : ascii :=
  ascii_of_nat (48 + Z.to_nat d).

Fixpoint decimal_aux (fuel : nat) (n : Z) (acc : string) : string :=
  match fuel with
  | O => acc
  | S fuel' =>
      let acc' := String (digit_char (n mod 10)) acc in
      if n / 10 =? 0 then acc' else decimal_aux fuel' (n / 10) acc'
  end.

(** The decimal numeral of [a >= 0]. *)
Definition decimal (a : Z) : string :=
  decimal_aux (S (Z.to_nat (Z.log2 a))) a "".

(** The number with the fewest significant digits that rounds to the
    binary64 number [a]: multiples of [scale], a power of ten, are tried for
    smaller and smaller [scale]; of two that round to [a] the nearer one is
    taken, and of two equally near the one with an even last digit. *)
Fixpoint shortest_aux (fuel : nat) (a scale : Z) : Z :=
  match fuel with
  | O => a
  | S fuel' =>
      let lo := a / scale * scale in
      let hi := lo + scale in
      let ok_lo := round53 lo =? a in
      let ok_hi := round53 hi =? a in
      if ok_lo && ok_hi then
        if a - lo <? hi - a then lo
        else if hi - a <? a - lo then hi
        else if Z.even (lo / scale) then lo else hi
      else if ok_lo then lo
      else if ok_hi then hi
      else shortest_aux fuel' a (scale / 10)
  end.

Definition shortest (a : Z) : Z :=
  let digits := String.length (decimal a) in
  shortest_aux digits a (10 ^ Z.of_nat (digits - 1)).

(** [String(n)] for an integer [n] of magnitude below [10^21], where
    numbers print in plain decimal notation: the digits that identify the
    number, followed by zeros.  Below [2^53] these are all its digits. *)
Definition String_of_number (n : Z) : string :=
  let a := Z.abs n in
  let digits := if a <? 2 ^ 53 then decimal a else decimal (shortest a) in
  if n <? 0 then String "-" digits else digits.

(** The value of [c] as a digit in [radix], if it is one. *)
Definition digit_val (radix : Z) (c : ascii) : option Z :=
  let n := Z.of_nat (nat_of_ascii c) in
  let d := if (48 <=? n) && (n <=? 57) then Some (n - 48)
           else if (97 <=? n) && (n <=? 122) then Some (n - 87)
           else if (65 <=? n) && (n <=? 90) then Some (n - 55)
           else None in
  match d with
  | Some k => if k <? radix then Some k else None
  | None => None
  end.

(** The value of the longest prefix of [s] made of digits, continuing from
    [acc]. *)
Fixpoint digits_val (radix : Z) (s : string) (acc : Z) : Z :=
  match s with
  | EmptyString => acc
  | String c rest =>
      match digit_val radix c with
      | Some d => digits_val radix rest (acc * radix + d)
      | None => acc
      end
  end.

(** The white space and line terminators [parseInt] skips
    ([StrWhiteSpaceChar]), by the length of their UTF-8 encoding.  One byte:
    tab, line feed, vertical tab, form feed, carriage return, space. *)
Definition is_whitespace (c : ascii) : bool :=
  let n := nat_of_ascii c in
  (Nat.eqb n 32 || (Nat.leb 9 n && Nat.leb n 13))%bool.

(** Two bytes: U+00A0, the no-break space. *)
Definition is_whitespace2 (c1 c2 : ascii) : bool :=
  (Nat.eqb (nat_of_ascii c1) 194 && Nat.eqb (nat_of_ascii c2) 160)%bool.

(** Three bytes: U+1680, U+2000 to U+200A, U+2028, U+2029, U+202F, U+205F,
    U+3000 and U+FEFF. *)
Definition is_whitespace3 (c1 c2 c3 : ascii) : bool :=
  let n1 := nat_of_ascii c1 in
  let n2 := nat_of_ascii c2 in
  let n3 := nat_of_ascii c3 in
  ((Nat.eqb n1 225 && Nat.eqb n2 154 && Nat.eqb n3 128)
   || (Nat.eqb n1 226 && Nat.eqb n2 128
       && ((Nat.leb 128 n3 && Nat.leb n3 138) || Nat.eqb n3 168 || Nat.eqb n3 169
           || Nat.eqb n3 175))
   || (Nat.eqb n1 226 && Nat.eqb n2 129 && Nat.eqb n3 159)
   || (Nat.eqb n1 227 && Nat.eqb n2 128 && Nat.eqb n3 128)
   || (Nat.eqb n1 239 && Nat.eqb n2 187 && Nat.eqb n3 191))%bool.

(** [s] without the white space it starts with. *)
Fixpoint trim_start (s : string) : string :=
  match s with
  | EmptyString => EmptyString
  | String c1 r1 =>
      if is_whitespace c1 then trim_start r1
      else
        match r1 with
        | EmptyString => s
        | String c2 r2 =>
            if is_whitespace2 c1 c2 then trim_start r2
            else
              match r2 with
              | EmptyString => s
              | String c3 r3 => if is_whitespace3 c1 c2 c3 then trim_start r3 else s
              end
        end
  end.

Definition starts_with_digit (radix : Z) (s : string) : bool :=
  match s with
  | String c _ => match digit_val radix c with Some _ => true | None => false end
  | EmptyString => false
  end.

(** [parseInt(s)] with no radix argument; [None] is [NaN]. *)
Definition parseInt (s : string) : option Z :=
  let s1 := trim_start s in
  let '(sign, s2) :=
    match s1 with
    | String "-" rest => (-1, rest)
    | String "+" rest => (1, rest)
    | _ => (1, s1)
    end in
  let '(radix, s3) :=
    match s2 with
    | String "0" (String "x" rest) => (16, rest)
    | String "0" (String "X" rest) => (16, rest)
    | _ => (10, s2)
    end in
  if starts_with_digit radix s3
  then Some (sign * round53 (digits_val radix s3 0))
  else None.

Example parseInt_001 : parseInt "001" = Some 1.
Proof. reflexivity. Qed.
Example parseInt_12abc : parseInt "12abc" = Some 12.
Proof. reflexivity. Qed.
Example parseInt_hex : parseInt "0x1F" = Some 31.
Proof. reflexivity. Qed.
Example parseInt_neg : parseInt " -7" = Some (-7).
Proof. reflexivity. Qed.
Example parseInt_nan : parseInt "abc" = None.
Proof. reflexivity. Qed.
Example parseInt_nbsp : parseInt (String "194" (String "160" "7")) = Some 7.
Proof. reflexivity. Qed.
Example parseInt_bom_tab :
  parseInt (String "239" (String "187" (String "191" (String "009" "42")))) = Some 42.
Proof. reflexivity. Qed.
Example parseInt_e_acute : parseInt (String "195" (String "169" "7")) = None.
Proof. reflexivity. Qed.
Example parseInt_2p53_1 : parseInt "9007199254740993" = Some 9007199254740992.
Proof. vm_compute. reflexivity. Qed.
Example round53_3 : round53 (2 ^ 53 + 3) = 2 ^ 53 + 4.
Proof. vm_compute. reflexivity. Qed.
Example String_of_number_120 : String_of_number 120 = "120".
Proof. vm_compute. reflexivity. Qed.
Example String_of_number_0 : String_of_number 0 = "0".
Proof. vm_compute. reflexivity. Qed.
Example String_of_number_2p53 : String_of_number (2 ^ 53) = "9007199254740992".
Proof. vm_compute. reflexivity. Qed.
Example String_of_number_2p53_2 : String_of_number (2 ^ 53 + 2) = "9007199254740994".
Proof. vm_compute. reflexivity. Qed.
Example String_of_number_2p64 : String_of_number (2 ^ 64) = "18446744073709552000".
Proof. vm_compute. reflexivity. Qed.
Example String_of_number_1e20 : String_of_number (10 ^ 20) = "100000000000000000000".
Proof. vm_compute. reflexivity. Qed.
Example String_of_number_2p60 : String_of_number (2 ^ 60) = "1152921504606847000".
Proof. vm_compute. reflexivity. Qed.
Example padStart0_7 : padStart0 3 (String_of_number 7) = "007".
Proof. vm_compute. reflexivity. Qed.
Example padStart0_1234 : padStart0 3 (String_of_number 1234) = "1234".
Proof. vm_compute. reflexivity. Qed.

(** ** The state-and-exception monad *)

Definition M (S A : Type) : Type := S -> result A * S.

Definition ret {S A} (a : A) : M S A := fun st => (Ok a, st).

Definition throw {S A} (e : error) : M S A := fun st => (Throw e, st).

(** Awaiting a promise that never settles: nothing after it runs. *)
Definition pending {S A} : M S A := fun st => (Pending, st).

Definition bind {S A B} (m : M S A) (k : A -> M S B) : M S B :=
  fun st =>
    match m st with
    | (Ok a, st') => k a st'
    | (Throw e, st') => (Throw e, st')
    | (Pending, st') => (Pending, st')
    end.

(** [try { m } catch (error) { h error }]. *)
Definition try_catch {S A} (m : M S A) (h : error -> M S A) : M S A :=
  fun st =>
    match m st with
    | (Ok a, st') => (Ok a, st')
    | (Throw e, st') => h e st'
    | (Pending, st') => (Pending, st')
    end.

Definition get {S} : M S S := fun st => (Ok st, st).

Definition modify {S} (f : S -> S) : M S unit := fun st => (Ok tt, f st).

(** A synchronous computation that may throw. *)
Definition lift {S A} (r : result A) : M S A := fun st => (r, st).

Notation "x <- m ;; k" := (bind m (fun x => k))
  (at level 100, m at next level, right associativity).
Notation "m ;;; k" := (bind m (fun _ => k))
  (at level 100, k at level 200, right associativity).

(** The same sequencing for synchronous callbacks, which have no state. *)
Definition rbind {A B} (r : result A) (k : A -> result B) : result B :=
  match r with
  | Ok a => k a
  | Throw e => Throw e
  | Pending => Pending
  end.

Notation "x <~ r ;; k" := (rbind r (fun x => k))
  (at level 100, r at next level, right associativity).

(** ** Resources, keys and the browser state *)

Inductive resource : Type := profile | settings | tasks | objects | requests.

#[global] Instance resource_eq_dec : EqDecision resource.
Proof. solve_decision. Defined.

(** The names the facade passes as [storeName]. *)
Definition store_name (r : resource) : string :=
  match r with
  | profile => "profile"
  | settings => "settings"
  | tasks => "tasks"
  | objects => "objects"
  | requests => "requests"
  end.

(** [this.keys[storeName]]. *)
Definition keys (r : resource) : string :=
  match r with
  | profile => "sap_migration_profile"
  | settings => "sap_migration_settings"
  | tasks => "sap_migration_tasks"
  | objects => "sap_migration_objects"
  | requests => "sap_migration_requests"
  end.

Definition theme_key : string := "sap_migration_theme".

(** [Object.values(this.keys)]. *)
Definition all_keys : list string :=
  [keys profile; keys settings; keys tasks; keys objects; keys requests; theme_key].

(** [['tasks', 'objects', 'requests'].includes(storeName)]. *)
Definition is_collection (r : resource) : bool :=
  match r with
  | tasks | objects | requests => true
  | profile | settings => false
  end.

Inductive effect : Type :=
| ConsoleError (msg : string)
| Dispatched (eventName : string) (detail : jsval).

Record state : Type := mkState {
  localStorage : gmap string text;
  db : option (gmap string (list value));
  trace : list effect
}.

Definition set_localStorage (f : gmap string text -> gmap string text) (st : state) : state :=
  mkState (f (localStorage st)) (db st) (trace st).

Definition set_store (name : string) (records : list value) (st : state) : state :=
  mkState (localStorage st) (insert name records <$> db st) (trace st).

Definition add_effect (e : effect) (st : state) : state :=
  mkState (localStorage st) (db st) (trace st ++ [e]).

Definition console_error (msg : string) : M state unit :=
  modify (add_effect (ConsoleError msg)).

(** [document.dispatchEvent(new CustomEvent(eventName, { detail: data }))]. *)
Definition dispatchEvent (eventName : string) (data : jsval) : M state unit :=
  modify (add_effect (Dispatched eventName data)).

(** ** Backend calls and their failures *)

Inductive backend_op : Type :=
| SetItem (key : string)
| GetItem (key : string)
| RemoveItem (key : string)
| OpenTransaction (store : string) (readwrite : bool)
| StoreClear (store : string)
| StoreGetAll (store : string).

(** [φ op = true]: the backend call [op] fails. *)
Definition faults : Type := backend_op -> bool.

Definition no_faults : faults := fun _ => false.

Definition backend_call (φ : faults) (op : backend_op) (what : string) : M state unit :=
  if φ op then throw (BackendFailure what) else ret tt.

Definition localStorage_setItem (φ : faults) (key : string) (t : text) : M state unit :=
  backend_call φ (SetItem key) "setItem";;;
  modify (set_localStorage (insert key t)).

Definition localStorage_getItem (φ : faults) (key : string) : M state (option text) :=
  backend_call φ (GetItem key) "getItem";;;
  st <- get;;
  ret (localStorage st !! key).

Definition localStorage_removeItem (φ : faults) (key : string) : M state unit :=
  backend_call φ (RemoveItem key) "removeItem";;;
  modify (set_localStorage (delete key)).

Definition JSON_stringify (v : value) : text := Json v.

Definition JSON_parse (t : text) : result value :=
  match t with
  | Json v => Ok v
  | NotJson _ => Throw SyntaxError
  end.

(** Truthiness of a string: it is not empty. *)
Definition text_truthy (t : text) : bool :=
  match t with
  | Json _ => true
  | NotJson s => negb (String.eqb s "")
  end.

(** ** IndexedDB object stores *)

(** [this.db.transaction([store], mode)]. *)
Definition db_transaction (φ : faults) (store : string) (readwrite : bool) : M state unit :=
  st <- get;;
  match db st with
  | None => throw TypeError
  | Some stores =>
      backend_call φ (OpenTransaction store readwrite) "transaction";;;
      match stores !! store with
      | Some _ => ret tt
      | None => throw NotFoundError
      end
  end.

(** [for (const item of data) { await body(item) }]. *)
Fixpoint for_of {S} (data : list value) (body : value -> M S unit) : M S unit :=
  match data with
  | [] => ret tt
  | item :: rest => body item;;; for_of rest body
  end.

(** [clearStore(storeName)]. *)
Definition clearStore (φ : faults) (store : string) : M state unit :=
  st <- get;;
  match db st with
  | None => ret tt
  | Some _ =>
      db_transaction φ store true;;;
      backend_call φ (StoreClear store) "clear";;;
      modify (set_store store [])
  end.

(** [getFromIndexedDB(storeName)]. *)
Definition getFromIndexedDB (φ : faults) (store : string) : M state (list value) :=
  db_transaction φ store false;;;
  backend_call φ (StoreGetAll store) "getAll";;;
  st <- get;;
  ret (default [] (db st ≫= (.!! store))).

Definition has_db (st : state) : bool :=
  match db st with
  | Some _ => true
  | None => false
  end.

Definition items_of (v : value) : list value :=
  match v with
  | JArr items => items
  | _ => []
  end.

(** ** [saveData], [loadData], [getDefaultData] *)

(** [store.add(item)] in [saveData].  The transaction of [store] was opened
    before [await this.clearStore(storeName)] and was given no request, so
    it finished when control went back to the event loop, before the
    clearing transaction on the same store could start.  [add] on a finished
    transaction throws. *)
Definition store_add (item : value) : M state unit := throw TransactionInactiveError.

(** [new Promise((resolve, reject) => { transaction.oncomplete = ...;
    transaction.onerror = ... })] on that finished transaction: its
    completion has been signalled already and no event follows, so the
    promise never settles. *)
Definition transaction_promise : M state unit := pending.

(** [saveData(storeName, data)]. *)
Definition saveData (φ : faults) (storeName : resource) (data : value) : M state unit :=
  try_catch
    (localStorage_setItem φ (keys storeName) (JSON_stringify data))
    (fun _ => console_error "Failed to save to localStorage:");;;
  st <- get;;
  if has_db st && is_collection storeName then
    let store := store_name storeName in
    try_catch
      (db_transaction φ store true;;;
       clearStore φ store;;;
       (if isArray data then for_of (items_of data) store_add else ret tt);;;
       transaction_promise)
      (fun _ => console_error ("Failed to save " +:+ store +:+ " to IndexedDB:"))
  else ret tt.

(** [getDefaultData(storeName)]. *)
Definition getDefaultData (storeName : resource) : value :=
  match storeName with
  | profile =>
      JObj [("nome", JStr ""); ("empresa", JStr ""); ("inicioProject", JStr "");
            ("cliente", JStr ""); ("avatar", JStr "🚀")]
  | settings =>
      JObj [("theme", JStr "light"); ("notifications", JBool true);
            ("autoSave", JBool true); ("language", JStr "pt-BR")]
  | tasks | objects | requests => JArr []
  end.

(** [loadData(storeName)]. *)
Definition loadData (φ : faults) (storeName : resource) : M state value :=
  st <- get;;
  fromDB <-
    (if has_db st && is_collection storeName then
       try_catch
         (data <- getFromIndexedDB φ (store_name storeName);;
          if (0 <? Z.of_nat (length data)) then ret (Some (JArr data)) else ret None)
         (fun _ =>
            console_error ("Failed to load " +:+ store_name storeName +:+ " from IndexedDB:");;;
            ret None)
     else ret None);;
  match fromDB with
  | Some data => ret data
  | None =>
      try_catch
        (data <- localStorage_getItem φ (keys storeName);;
         match data with
         | Some t => if text_truthy t then lift (JSON_parse t)
                     else ret (getDefaultData storeName)
         | None => ret (getDefaultData storeName)
         end)
        (fun _ =>
           console_error ("Failed to load " +:+ store_name storeName +:+ " from localStorage:");;;
           ret (getDefaultData storeName))
  end.

(** ** Array methods with callbacks that may throw *)

Fixpoint array_findIndex_from (p : value -> result bool) (l : list value) (i : Z) : result Z :=
  match l with
  | [] => Ok (-1)
  | x :: rest =>
      b <~ p x;;
      if b : bool then Ok i else array_findIndex_from p rest (i + 1)
  end.

(** [l.findIndex(p)]. *)
Definition array_findIndex (p : value -> result bool) (l : list value) : result Z :=
  array_findIndex_from p l 0.

(** [l.find(p)]. *)
Fixpoint array_find (p : value -> result bool) (l : list value) : result jsval :=
  match l with
  | [] => Ok None
  | x :: rest =>
      b <~ p x;;
      if b : bool then Ok (Some x) else array_find p rest
  end.

(** [l.filter(p)]. *)
Fixpoint array_filter (p : value -> result bool) (l : list value) : result (list value) :=
  match l with
  | [] => Ok []
  | x :: rest =>
      b <~ p x;;
      kept <~ array_filter p rest;;
      Ok (if b : bool then x :: kept else kept)
  end.

(** [l.reduce(f, init)]. *)
Fixpoint array_reduce {A} (f : A -> value -> result A) (l : list value) (acc : A) : result A :=
  match l with
  | [] => Ok acc
  | x :: rest =>
      acc' <~ f acc x;;
      array_reduce f rest acc'
  end.

(** ** Profile and settings *)

Definition getProfile (φ : faults) : M state value := loadData φ profile.

Definition saveProfile (φ : faults) (p : value) : M state unit :=
  saveData φ profile p;;;
  dispatchEvent "profileUpdated" (Some p).

Definition getSettings (φ : faults) : M state value := loadData φ settings.

(** ** Collections: the getters, upsert, delete and get-by-id

    The source repeats one body per collection; the bodies are written once
    here and instantiated under the source's names. *)

(** [const xs = await this.loadData(r); return Array.isArray(xs) ? xs : [];] *)
Definition getCollection (φ : faults) (r : resource) : M state value :=
  xs <- loadData φ r;;
  ret (if isArray xs then xs else JArr []).

(** The callback [t => t.id === item.id]. *)
Definition same_id_as (item : value) (t : value) : result bool :=
  a <~ get_prop t "id";;
  b <~ get_prop item "id";;
  Ok (strict_eq a b).

(** The callback [t => t.id === id]. *)
Definition has_id (id : jsval) (t : value) : result bool :=
  a <~ get_prop t "id";;
  Ok (strict_eq a id).

(** The callback [t => t.id !== id]. *)
Definition has_other_id (id : jsval) (t : value) : result bool :=
  a <~ get_prop t "id";;
  Ok (negb (strict_eq a id)).

Definition upsert (φ : faults) (r : resource) (eventName : string) (item : value) : M state value :=
  xs <- getCollection φ r;;
  let records := items_of xs in
  existingIndex <- lift (array_findIndex (same_id_as item) records);;
  let records' :=
    if 0 <=? existingIndex then <[Z.to_nat existingIndex := item]> records
    else records ++ [item] in
  saveData φ r (JArr records');;;
  dispatchEvent eventName (Some (JArr records'));;;
  ret item.

Definition delete_by_id (φ : faults) (r : resource) (eventName : string) (id : jsval) : M state unit :=
  xs <- getCollection φ r;;
  filtered <- lift (array_filter (has_other_id id) (items_of xs));;
  saveData φ r (JArr filtered);;;
  dispatchEvent eventName (Some (JArr filtered)).

Definition get_by_id (φ : faults) (r : resource) (id : jsval) : M state jsval :=
  xs <- getCollection φ r;;
  lift (array_find (has_id id) (items_of xs)).

Definition getTasks (φ : faults) : M state value := getCollection φ tasks.
Definition saveTask (φ : faults) (task : value) : M state value := upsert φ tasks "tasksUpdated" task.
Definition deleteTask (φ : faults) (taskId : jsval) : M state unit := delete_by_id φ tasks "tasksUpdated" taskId.
Definition getTaskById (φ : faults) (taskId : jsval) : M state jsval := get_by_id φ tasks taskId.

Definition getObjects (φ : faults) : M state value := getCollection φ objects.
Definition saveObject (φ : faults) (object : value) : M state value := upsert φ objects "objectsUpdated" object.
Definition deleteObject (φ : faults) (objectId : jsval) : M state unit := delete_by_id φ objects "objectsUpdated" objectId.
Definition getObjectById (φ : faults) (objectId : jsval) : M state jsval := get_by_id φ objects objectId.

Definition getRequests (φ : faults) : M state value := getCollection φ requests.
Definition saveRequest (φ : faults) (request : value) : M state value := upsert φ requests "requestsUpdated" request.

(** ** [generateTaskId] *)

(** The reducer of [generateTaskId]. *)
Definition max_task_number (max : Z) (task : value) : result Z :=
  id <~ get_prop task "id";;
  if truthy_opt id then
    match id with
    | Some (JStr s) =>
        if startsWith "TSK" s then
          let num := parseInt (remove_prefix "TSK" s) in
          Ok (Z.max max (match num with Some n => n | None => 0 end))
        else Ok max
    | _ => Throw TypeError
    end
  else Ok max.

Definition generateTaskId (φ : faults) : M state string :=
  xs <- getTasks φ;;
  maxId <- lift (array_reduce max_task_number (items_of xs) 0);;
  ret ("TSK" +:+ padStart0 3 (String_of_number (js_add maxId 1))).

(** ** Export, import, clear *)

(** [exportData()]; [now] is [new Date().toISOString()]. *)
Definition exportData (φ : faults) (now : string) : M state text :=
  p <- getProfile φ;;
  s <- getSettings φ;;
  t <- getTasks φ;;
  o <- getObjects φ;;
  r <- getRequests φ;;
  ret (JSON_stringify
         (JObj [("profile", p); ("settings", s); ("tasks", t); ("objects", o);
                ("requests", r); ("exportDate", JStr now); ("version", JStr "1.0")])).

(** The argument of [importData]: a string, or a value that is not one. *)
Inductive import_arg : Type :=
| StringArg (t : text)
| ValueArg (v : value).

(** [error.message].  The text of a native error is the engine's own; its
    place is taken here by the name of the error. *)
Definition error_message (e : error) : string :=
  match e with
  | TypeError => "TypeError"
  | SyntaxError => "SyntaxError"
  | NotFoundError => "NotFoundError"
  | TransactionInactiveError => "TransactionInactiveError"
  | BackendFailure what => what
  end.

(** [if (data.k) await this.saveData(k, data.k)]. *)
Definition import_resource (φ : faults) (data : value) (r : resource) : M state unit :=
  v <- lift (get_prop data (store_name r));;
  match v with
  | Some x => if truthy x then saveData φ r x else ret tt
  | None => ret tt
  end.

Definition result_object (success : bool) (message : string) : value :=
  JObj [("success", JBool success); ("message", JStr message)].

Definition importData (φ : faults) (jsonData : import_arg) : M state value :=
  try_catch
    (data <- lift (match jsonData with
                   | StringArg t => JSON_parse t
                   | ValueArg v => Ok v
                   end);;
     import_resource φ data profile;;;
     import_resource φ data settings;;;
     import_resource φ data tasks;;;
     import_resource φ data objects;;;
     import_resource φ data requests;;;
     dispatchEvent "dataImported" (Some data);;;
     ret (result_object true "Dados importados com sucesso!"))
    (fun error =>
       console_error "Failed to import data:";;;
       ret (result_object false ("Erro ao importar dados: " +:+ error_message error))).

Fixpoint for_each_key {S} (l : list string) (body : string -> M S unit) : M S unit :=
  match l with
  | [] => ret tt
  | k :: rest => body k;;; for_each_key rest body
  end.

Definition clearAllData (φ : faults) : M state value :=
  try_catch
    (for_each_key all_keys (localStorage_removeItem φ);;;
     st <- get;;
     (if has_db st
      then for_each_key ["tasks"; "objects"; "requests"] (clearStore φ)
      else ret tt);;;
     dispatchEvent "dataCleared" None;;;
     ret (result_object true "Todos os dados foram limpos!"))
    (fun error =>
       console_error "Failed to clear data:";;;
       ret (result_object false ("Erro ao limpar dados: " +:+ error_message error))).

(** ** Search *)

(** [!filters.f || record.field === filters.f]. *)
Definition matches_filter (f field : string) (filters record : value) : result bool :=
  wanted <~ get_prop filters f;;
  if negb (truthy_opt wanted) then Ok true
  else
    actual <~ get_prop record field;;
    Ok (strict_eq actual wanted).

Section Search.

(** [String.prototype.toLowerCase]: the lower-case mapping of the platform's
    Unicode tables. *)
Variable toLowerCase : string -> string.

(** [field.toLowerCase().includes(query.toLowerCase())]. *)
Definition lower_includes (field query : jsval) : result bool :=
  match field with
  | Some (JStr s) =>
      match query with
      | Some (JStr q) => Ok (includes (toLowerCase q) (toLowerCase s))
      | _ => Throw TypeError
      end
  | _ => Throw TypeError
  end.

(** [!query || a.toLowerCase().includes(q) || b.toLowerCase().includes(q)
     || (c && c.toLowerCase().includes(q))] for the three text fields. *)
Definition matches_query (fa fb fc : string) (query : jsval) (record : value) : result bool :=
  if negb (truthy_opt query) then Ok true
  else
    a <~ get_prop record fa;;
    ma <~ lower_includes a query;;
    if ma : bool then Ok true
    else
      b <~ get_prop record fb;;
      mb <~ lower_includes b query;;
      if mb : bool then Ok true
      else
        c <~ get_prop record fc;;
        if truthy_opt c then lower_includes c query else Ok false.

Definition task_matches (query : jsval) (filters : value) (task : value) : result bool :=
  matchesQuery <~ matches_query "titulo" "id" "descricao" query task;;
  matchesStatus <~ matches_filter "status" "status" filters task;;
  matchesPriority <~ matches_filter "priority" "prioridade" filters task;;
  matchesCategory <~ matches_filter "category" "categoria" filters task;;
  Ok (matchesQuery && matchesStatus && matchesPriority && matchesCategory).

Definition searchTasks (φ : faults) (query : jsval) (filters : value) : M state (list value) :=
  xs <- getTasks φ;;
  lift (array_filter (task_matches query filters) (items_of xs)).

Definition object_matches (query : jsval) (filters : value) (object : value) : result bool :=
  matchesQuery <~ matches_query "nome" "id" "notas" query object;;
  matchesType <~ matches_filter "type" "tipo" filters object;;
  matchesStatus <~ matches_filter "status" "status" filters object;;
  Ok (matchesQuery && matchesType && matchesStatus).

Definition searchObjects (φ : faults) (query : jsval) (filters : value) : M state (list value) :=
  xs <- getObjects φ;;
  lift (array_filter (object_matches query filters) (items_of xs)).

End Search.

(** * Properties *)

(** ** Running computations *)

Definition outcome {S A} (m : M S A) (st : S) : result A := fst (m st).

Definition after {S A} (m : M S A) (st : S) : S := snd (m st).

Definition initial_state : state := mkState ∅ None [].

(** The state once [initializeDB] has created the three object stores. *)
Definition initial_state_with_db : state :=
  mkState ∅ (Some (<["tasks" := []]> (<["objects" := []]> (<["requests" := []]> ∅)))) [].

Ltac unfold_monad :=
  unfold outcome, after, backend_call, console_error, dispatchEvent in *;
  unfold bind, ret, throw, try_catch, get, modify, lift in *.

Ltac rewrite_lookups :=
  repeat match goal with
         | H : ?m !! ?k = _, H' : context [?m !! ?k] |- _ =>
             lazymatch H' with H => fail | _ => rewrite H in H' end
         | H : ?m !! ?k = _ |- context [?m !! ?k] => rewrite H
         end.

Ltac case_if :=
  match goal with
  | |- context [if ?b then _ else _] => destruct b eqn:?; cbn
  end.

(** What the indexed backend answers when [loadData] asks it for [r]:
    nothing when it is not asked, not there, or fails. *)
Definition indexed_answer (φ : faults) (st : state) (r : resource) : option (list value) :=
  if is_collection r
     && negb (φ (OpenTransaction (store_name r) false))
     && negb (φ (StoreGetAll (store_name r)))
  then db st ≫= (.!! store_name r)
  else None.

(** What the key-value backend holds for [r], read as [loadData] reads it:
    the default when the entry is absent, empty or not JSON, or when the
    read fails. *)
Definition keyvalue_answer (φ : faults) (st : state) (r : resource) : value :=
  if φ (GetItem (keys r)) then getDefaultData r
  else match localStorage st !! keys r with
       | Some (Json v) => v
       | _ => getDefaultData r
       end.

Definition load_view (φ : faults) (st : state) (r : resource) : value :=
  match indexed_answer φ st r with
  | Some (x :: rest) => JArr (x :: rest)
  | _ => keyvalue_answer φ st r
  end.

(** Whether the database is open and has the object store [store]. *)
Definition has_store (st : state) (store : string) : bool :=
  match db st ≫= (.!! store) with
  | Some _ => true
  | None => false
  end.

(** The IndexedDB half of a save of [r] gets past [clearStore]: [r] is a
    collection, the database is open and has its store, and neither the
    opening of the transaction nor the clearing of the store fails. *)
Definition reaches_store (φ : faults) (r : resource) (st : state) : bool :=
  is_collection r && has_store st (store_name r)
  && negb (φ (OpenTransaction (store_name r) true))
  && negb (φ (StoreClear (store_name r))).

(** There is a record for [store.add] to be called with. *)
Definition has_items (data : value) : bool :=
  match data with
  | JArr (_ :: _) => true
  | _ => false
  end.

(** [saveData(r, data)] never settles: the store is reached and there is
    nothing to add, so the call ends on the promise of the finished
    transaction. *)
Definition never_settles (φ : faults) (r : resource) (data : value) (st : state) : bool :=
  reaches_store φ r st && negb (has_items data).

(** What [saveData] does to the object stores, and how it ends. *)
Definition save_indexed (φ : faults) (store : string) (data : value)
    (stores : gmap string (list value)) : result unit * gmap string (list value) :=
  if φ (OpenTransaction store true) then (Ok tt, stores)
  else match stores !! store with
       | None => (Ok tt, stores)
       | Some _ =>
           if φ (StoreClear store) then (Ok tt, stores)
           else (if has_items data then Ok tt else Pending, <[store := []]> stores)
       end.

Definition save_view (φ : faults) (r : resource) (data : value) (st : state)
    : result unit * (gmap string text * option (gmap string (list value))) :=
  let ls := if φ (SetItem (keys r)) then localStorage st
            else <[keys r := Json data]> (localStorage st) in
  match db st with
  | Some stores =>
      if is_collection r
      then let '(res, stores') := save_indexed φ (store_name r) data stores in
           (res, (ls, Some stores'))
      else (Ok tt, (ls, Some stores))
  | None => (Ok tt, (ls, None))
  end.

(** ** Records with string ids *)

Definition record_id (v : value) : option string :=
  match v with
  | JObj fields =>
      match assoc "id" fields with
      | Some (JStr s) => Some s
      | _ => None
      end
  | _ => None
  end.

(** A record as the controllers build it: an object whose [id] is a string. *)
Definition valid_record (v : value) : Prop := is_Some (record_id v).

Definition ids (l : list value) : list string := omap record_id l.

(** Replace the first record whose id is [i], or append. *)
Fixpoint upsert_list (i : string) (item : value) (l : list value) : list value :=
  match l with
  | [] => [item]
  | x :: rest =>
      if decide (record_id x = Some i) then item :: rest
      else x :: upsert_list i item rest
  end.

(** ** What the getters return *)

Definition collection_view (φ : faults) (st : state) (r : resource) : value :=
  let xs := load_view φ st r in
  if isArray xs then xs else JArr [].

Definition records (φ : faults) (st : state) (r : resource) : list value :=
  items_of (collection_view φ st r).

(** What the two backends hold for [r]: its key-value entry and its object
    store. *)
Definition resource_state (st : state) (r : resource) : option text * option (list value) :=
  (localStorage st !! keys r, db st ≫= (.!! store_name r)).

(** The computation [m] leaves the observation [f] of the state as it is. *)
Definition preserves {A X} (f : state -> X) (m : M state A) : Prop :=
  forall st, f (after m st) = f st.


(** The document [importData] works on. *)
Definition import_document (jsonData : import_arg) : result value :=
  match jsonData with
  | StringArg t => JSON_parse t
  | ValueArg v => Ok v
  end.


(** The import steps of [importData] as a loop over the resources. *)
Fixpoint import_all (φ : faults) (data : value) (rs : list resource) : M state unit :=
  match rs with
  | [] => ret tt
  | r :: rest => import_resource φ data r;;; import_all φ data rest
  end.

Definition all_resources : list resource := [profile; settings; tasks; objects; requests].

(** The backend calls a save needs for the data to land where the next
    load looks: the key-value write, and the opening of the read-write
    transaction and the clearing of the store, which empty the object store
    the load would otherwise answer from. *)
Definition writes_through (φ : faults) (r : resource) : Prop :=
  φ (SetItem (keys r)) = false /\
  φ (OpenTransaction (store_name r) true) = false /\
  φ (StoreClear (store_name r)) = false.

(** The key-value read of a load succeeds. *)
Definition reads_through (φ : faults) (r : resource) : Prop :=
  φ (GetItem (keys r)) = false.

(** ** Sample data and the statements under test *)

Definition task_TSK001 : value :=
  JObj [("id", JStr "TSK001"); ("titulo", JStr "Levantamento de objetos Z");
        ("status", JStr "planejado"); ("prioridade", JStr "alta")].

(** The indexed backend yields [recs] for [r]: [r] is a collection, the
    database is open and has the store, and neither the read-only
    transaction nor [getAll] fails. *)
Definition indexed_yields (φ : faults) (st : state) (r : resource) (recs : list value) : Prop :=
  is_collection r = true /\
  φ (OpenTransaction (store_name r) false) = false /\
  φ (StoreGetAll (store_name r)) = false /\
  db st ≫= (.!! store_name r) = Some recs.




Definition object_ZEXIT01 : value :=
  JObj [("id", JStr "ZEXIT01"); ("tipo", JStr "exit");
        ("status", JStr "nao-analisado"); ("impacto", JStr "critico")].

Definition object_ZEXIT01_converted : value :=
  JObj [("id", JStr "ZEXIT01"); ("status", JStr "convertido")].



(** The backup of the specification's example: tasks and objects only. *)
Definition backup_tasks_objects : value :=
  JObj [("tasks", JArr [task_TSK001]); ("objects", JArr [])].

Definition profile_ana : value :=
  JObj [("nome", JStr "Ana"); ("empresa", JStr "ACME"); ("inicioProject", JStr "2024-01-15");
        ("cliente", JStr "ACME"); ("avatar", JStr "A")].

(** A state with a saved profile, one request and one task. *)
Definition populated_state : state :=
  after (saveTask no_faults task_TSK001)
    (after (saveRequest no_faults (JObj [("id", JStr "REQ1"); ("status", JStr "aberta")]))
       (after (saveProfile no_faults profile_ana) initial_state)).

(** What a getter of the facade returns for [r]. *)
Definition read (φ : faults) (r : resource) : M state value :=
  match r with
  | profile => getProfile φ
  | settings => getSettings φ
  | tasks => getTasks φ
  | objects => getObjects φ
  | requests => getRequests φ
  end.

(** Export, clear everything, import the exported document. *)
Definition export_clear_import (now : string) (doc : text) (st : state) : state :=
  after (importData no_faults (StringArg doc))
    (after (clearAllData no_faults)
       (after (exportData no_faults now) st)).





(** The same with the database open, and an object besides. *)
Definition populated_state_with_db : state :=
  after (saveObject no_faults object_ZEXIT01)
    (after (saveTask no_faults task_TSK001)
       (after (saveProfile no_faults profile_ana) initial_state_with_db)).


(** ** Error handling *)



(** ** Search *)

(** [v.k] for a record that is not [null]. *)
Definition field (k : string) (v : value) : jsval :=
  match v with
  | JObj fields => assoc k fields
  | _ => None
  end.

(** A task record as the search reads it: an object whose [titulo] and [id]
    are strings and whose [descricao], when it is there and truthy, is a
    string. *)
Definition task_record (v : value) : Prop :=
  (exists fields, v = JObj fields) /\
  (exists s, field "titulo" v = Some (JStr s)) /\
  (exists s, field "id" v = Some (JStr s)) /\
  (truthy_opt (field "descricao" v) = true -> exists s, field "descricao" v = Some (JStr s)).

(** The status part of the search property as the specification words it:
    a search by status filter [s] returns the records whose status is [s]. *)
Definition status_filter_selects (toLowerCase : string -> string) (φ : faults) (st : state)
    (s : value) : Prop :=
  forall ts, outcome (getTasks φ) st = Ok (JArr ts) ->
    outcome (searchTasks toLowerCase φ (Some (JStr "")) (JObj [("status", s)])) st
      = Ok (filter (fun t => strict_eq (field "status" t) (Some s) = true) ts).

(** Whether the test [p] accepts [t]. *)
Definition hits (p : value -> result bool) (t : value) : bool :=
  match p t with
  | Ok b => b
  | _ => false
  end.

(** ** Task numbers *)

Definition is_digit (c : ascii) : bool :=
  match digit_val 10 c with
  | Some _ => true
  | None => false
  end.

Fixpoint all_digits (s : string) : bool :=
  match s with
  | EmptyString => true
  | String c rest => is_digit c && all_digits rest
  end.

(** The number a task contributes to the maximum: the numeric suffix of an
    id that starts with [TSK] ([0] when the suffix is not a number). *)
Definition task_number (t : value) : option Z :=
  match record_id t with
  | Some s =>
      if startsWith "TSK" s
      then Some (default 0 (parseInt (remove_prefix "TSK" s)))
      else None
  | None => None
  end.

(** The maximum numeric suffix among the ids that match the [TSK] pattern,
    [0] when there is none. *)
Definition max_numeric_suffix (ts : list value) : Z :=
  foldr Z.max 0 (omap task_number ts).

(** The freshness part of the id-generation property as the specification
    words it: the generated id is no id of the collection. *)
Definition generated_id_is_fresh (φ : faults) (st : state) : Prop :=
  forall ts id,
    outcome (getTasks φ) st = Ok (JArr ts) ->
    outcome (generateTaskId φ) st = Ok id ->
    id ∉ ids ts.

(** A state reached through the facade whose one task has the numeric
    suffix [2^53]. *)
Definition big_suffix_state : state :=
  after (saveTask no_faults
           (JObj [("id", JStr "TSK9007199254740992"); ("titulo", JStr "Cutover")]))
        initial_state.

(** * Further parts of the code *)

(** ** [SettingsController.validateImportedData] *)

(** [typeof v === 'object']. *)
Definition typeof_object (v : value) : bool :=
  match v with
  | JNull | JObj _ | JArr _ => true
  | _ => false
  end.

(** [k in v] for an object or array [v] and the names [profile], [tasks],
    [objects], which no prototype defines. *)
Definition has_property (k : string) (v : value) : bool :=
  match v with
  | JObj fields => match assoc k fields with Some _ => true | None => false end
  | _ => false
  end.

Definition invalid_data (error : string) : value :=
  JObj [("valid", JBool false); ("error", JStr error)].

Definition valid_data : value := JObj [("valid", JBool true)].

Definition isArray_opt (o : jsval) : bool :=
  match o with
  | Some v => isArray v
  | None => false
  end.

(** [validateImportedData(data)]. *)
Definition validateImportedData (data : value) : value :=
  let requiredFields := ["profile"; "tasks"; "objects"] in
  if negb (truthy data) || negb (typeof_object data)
  then invalid_data "Arquivo não contém dados válidos"
  else
    let missingFields := List.filter (fun f => negb (has_property f data)) requiredFields in
    if (0 <? Z.of_nat (length missingFields))
    then invalid_data ("Campos obrigatórios ausentes: " +:+ String.concat ", " missingFields)
    else if negb (isArray_opt (field "tasks" data))
    then invalid_data "Dados de tarefas inválidos"
    else if negb (isArray_opt (field "objects" data))
    then invalid_data "Dados de objetos inválidos"
    else valid_data.

(** ** [ObjectsController.validateObjectForm] *)

(** [validateObjectForm(formData)], given [this.currentEditingObject] and
    [this.currentObjects]; the result comes with the message handed to
    [showError], if any. *)
Definition validateObjectForm (currentEditingObject : jsval) (currentObjects : list value)
    (formData : value) : result (bool * option string) :=
  id <~ get_prop formData "id";;
  if negb (truthy_opt id) then Ok (false, Some "ID do objeto é obrigatório")
  else
    tipo <~ get_prop formData "tipo";;
    if negb (truthy_opt tipo) then Ok (false, Some "Tipo do objeto é obrigatório")
    else if negb (truthy_opt currentEditingObject) then
      existingObject <~ array_find (same_id_as formData) currentObjects;;
      if truthy_opt existingObject
      then Ok (false, Some "Já existe um objeto com este ID")
      else Ok (true, None)
    else Ok (true, None).

(** ** Observations used below *)

(** What both backends hold, leaving the console and the events aside. *)
Definition backends (st : state) : gmap string text * option (gmap string (list value)) :=
  (localStorage st, db st).

(** The three object stores are there. *)
Definition stores_created (st : state) : Prop :=
  forall stores, db st = Some stores ->
    is_Some (stores !! "tasks") /\ is_Some (stores !! "objects") /\
    is_Some (stores !! "requests").

Definition import_failure_result (r : result value) : Prop :=
  exists message, r = Ok (result_object false message).

(** The filters hold no truthy value: nothing is filtered on. *)
Definition no_filter (filters : list (string * value)) : Prop :=
  forall k v, assoc k filters = Some v -> truthy v = false.

Definition object_ZEXIT01_form : value :=
  JObj [("id", JStr "ZEXIT01"); ("tipo", JStr "exit"); ("status", JStr "nao-analisado")].

Definition object_ZREPORT : value :=
  JObj [("id", JStr "ZREPORT"); ("nome", JStr "ZREPORT"); ("tipo", JStr "report");
        ("status", JStr "convertido"); ("impacto", JStr "baixo")].

(** A state with one task in both backends, a stored theme, and the three
    object stores. *)
Definition one_task_state : state :=
  mkState (<[keys tasks := Json (JArr [task_TSK001])]> (<[theme_key := NotJson "dark"]> ∅))
          (Some (<["tasks" := [task_TSK001]]> (<["objects" := []]> (<["requests" := []]> ∅))))
          [].
(** * How the operations run *)


Lemma loadData_run φ r st :
  exists tr, loadData φ r st = (Ok (load_view φ st r), mkState (localStorage st) (db st) tr).
Proof.
  unfold loadData, load_view, indexed_answer, keyvalue_answer, localStorage_getItem,
    getFromIndexedDB, db_transaction, has_db.
  unfold_monad. destruct st as [ls [stores|] tr]; cbn.
  all: destruct (is_collection r); cbn.
  all: repeat case_if.
  all: repeat (case_match; cbn in *; simplify_eq; rewrite_lookups; cbn in *; try done); eauto.
Qed.

Lemma saveData_run φ r data st :
  exists tr,
    saveData φ r data st =
      (fst (save_view φ r data st),
       mkState (fst (snd (save_view φ r data st))) (snd (snd (save_view φ r data st))) tr).
Proof.
  unfold saveData, save_view, save_indexed, localStorage_setItem, clearStore,
    transaction_promise, db_transaction, has_db, has_items.
  unfold_monad. unfold pending. destruct st as [ls [stores|] tr]; cbn.
  all: destruct (is_collection r); cbn.
  all: destruct (φ (SetItem (keys r))); cbn; eauto.
  all: destruct (φ (OpenTransaction (store_name r) true)); cbn; eauto.
  all: destruct (stores !! store_name r) eqn:Hs; cbn; rewrite ?Hs; cbn; eauto.
  all: destruct (φ (StoreClear (store_name r))); cbn; eauto.
  all: destruct data as [| | | |[|x xs]|]; cbn; eauto.
Qed.

Lemma record_id_get_prop v i :
  record_id v = Some i -> get_prop v "id" = Ok (Some (JStr i)).
Proof.
  destruct v as [| | | |?|fields]; try discriminate. cbn.
  destruct (assoc "id" fields) as [[]|]; try discriminate. by intros [= ->].
Qed.

Lemma String_eqb_decide (a b : string) : String.eqb a b = bool_decide (a = b).
Proof.
  destruct (String.eqb_spec a b);
    [by rewrite bool_decide_eq_true_2 | by rewrite bool_decide_eq_false_2].
Qed.

Lemma has_id_valid v i j :
  record_id v = Some i -> has_id (Some (JStr j)) v = Ok (bool_decide (i = j)).
Proof.
  intros H. unfold has_id. rewrite (record_id_get_prop _ _ H). cbn.
  by rewrite String_eqb_decide.
Qed.

Lemma has_other_id_valid v i j :
  record_id v = Some i -> has_other_id (Some (JStr j)) v = Ok (negb (bool_decide (i = j))).
Proof.
  intros H. unfold has_other_id. rewrite (record_id_get_prop _ _ H). cbn.
  by rewrite String_eqb_decide.
Qed.

Lemma same_id_as_valid item v i j :
  record_id item = Some j -> record_id v = Some i ->
  same_id_as item v = Ok (bool_decide (i = j)).
Proof.
  intros Hj Hi. unfold same_id_as.
  rewrite (record_id_get_prop _ _ Hi), (record_id_get_prop _ _ Hj). cbn.
  by rewrite String_eqb_decide.
Qed.

Lemma findIndex_upsert item j l n :
  record_id item = Some j -> Forall valid_record l -> 0 <= n ->
  exists k, array_findIndex_from (same_id_as item) l n = Ok k /\
    ((k = -1 /\ l ++ [item] = upsert_list j item l) \/
     (n <= k /\ <[Z.to_nat (k - n) := item]> l = upsert_list j item l)).
Proof.
  intros Hj Hl. revert n. induction Hl as [|x l [i Hi] Hl IH]; intros n Hn; cbn.
  - exists (-1). split; [done|]. by left.
  - rewrite (same_id_as_valid _ _ _ _ Hj Hi). cbn.
    rewrite Hi. destruct (decide (Some i = Some j)) as [[= ->]|Hne].
    + rewrite bool_decide_eq_true_2 by done. exists n. split; [done|]. right.
      split; [lia|]. by replace (n - n) with 0 by lia.
    + rewrite bool_decide_eq_false_2 by congruence.
      destruct (IH (n + 1)) as (k & -> & Hk); [lia|]. exists k. split; [done|].
      destruct Hk as [[-> Hk]|[Hle Hk]].
      * left. split; [done|]. by rewrite <- Hk.
      * right. split; [lia|]. rewrite <- Hk.
        replace (Z.to_nat (k - n)) with (S (Z.to_nat (k - (n + 1)))) by lia. done.
Qed.

(** The list [upsert] hands to [saveData]. *)
Lemma upsert_records item j l :
  record_id item = Some j -> Forall valid_record l ->
  exists k, array_findIndex (same_id_as item) l = Ok k /\
    (if 0 <=? k then <[Z.to_nat k := item]> l else l ++ [item]) = upsert_list j item l.
Proof.
  intros Hj Hl. destruct (findIndex_upsert item j l 0 Hj Hl) as (k & Hk & H); [lia|].
  exists k. split; [done|]. destruct H as [[-> H]|[Hle H]]; cbn; [done|].
  destruct (Z.leb_spec 0 k); [|lia]. by rewrite Z.sub_0_r in H.
Qed.

Lemma upsert_list_valid i item l :
  valid_record item -> Forall valid_record l -> Forall valid_record (upsert_list i item l).
Proof.
  intros Hi Hl. induction Hl as [|x l Hx Hl IH]; cbn; [by constructor|].
  case_decide; constructor; auto.
Qed.

Lemma find_upsert_list i item l :
  record_id item = Some i -> Forall valid_record l ->
  array_find (has_id (Some (JStr i))) (upsert_list i item l) = Ok (Some item).
Proof.
  intros Hi Hl. induction Hl as [|x l [j Hj] Hl IH]; cbn.
  - rewrite (has_id_valid _ _ _ Hi). cbn. by rewrite bool_decide_eq_true_2.
  - case_decide as Hd; cbn.
    + rewrite (has_id_valid _ _ _ Hi). cbn. by rewrite bool_decide_eq_true_2.
    + rewrite (has_id_valid _ _ _ Hj). cbn.
      rewrite bool_decide_eq_false_2 by congruence. done.
Qed.

Lemma ids_cons_valid x l i : record_id x = Some i -> ids (x :: l) = i :: ids l.
Proof. intros H. unfold ids. cbn. by rewrite H. Qed.


Lemma getCollection_run φ r st :
  exists tr, getCollection φ r st =
    (Ok (collection_view φ st r), mkState (localStorage st) (db st) tr).
Proof.
  unfold getCollection, collection_view. destruct (loadData_run φ r st) as (tr & H).
  exists tr. unfold bind. by rewrite H.
Qed.

Lemma collection_view_records φ st r : collection_view φ st r = JArr (records φ st r).
Proof.
  unfold records, collection_view. by destruct (load_view φ st r).
Qed.


Lemma save_view_ext φ r data st st' :
  localStorage st = localStorage st' -> db st = db st' ->
  save_view φ r data st = save_view φ r data st'.
Proof. intros Hl Hd. unfold save_view. by rewrite Hl, Hd. Qed.


(** The object store after a save whose transaction and clearing went
    through: not there, as before, or empty. *)
Lemma save_indexed_store φ store data stores :
  φ (OpenTransaction store true) = false -> φ (StoreClear store) = false ->
  snd (save_indexed φ store data stores) !! store = (fun _ => []) <$> stores !! store.
Proof.
  intros Ho Hc. unfold save_indexed. rewrite Ho, Hc.
  destruct (stores !! store) eqn:Hs; cbn; [by rewrite lookup_insert_eq|done].
Qed.


(** How [saveData] ends. *)
Lemma save_view_outcome φ r data st :
  fst (save_view φ r data st) = if never_settles φ r data st then Pending else Ok tt.
Proof.
  unfold save_view, save_indexed, never_settles, reaches_store, has_store.
  destruct (db st) as [stores|]; cbn; [|by rewrite andb_false_r].
  destruct (is_collection r); cbn; [|done].
  destruct (φ (OpenTransaction (store_name r) true)); cbn;
    [by rewrite andb_false_r|].
  destruct (stores !! store_name r); cbn; [|done].
  destruct (φ (StoreClear (store_name r))); cbn; [done|].
  by destruct (has_items data).
Qed.

Lemma elem_of_upsert_list i item l : item ∈ upsert_list i item l.
Proof.
  induction l as [|x l IH]; cbn; [by left|]. case_decide; [by left|by right].
Qed.

Lemma upsert_run φ r ev item j st :
  record_id item = Some j -> Forall valid_record (records φ st r) ->
  let data := JArr (upsert_list j item (records φ st r)) in
  exists tr,
    upsert φ r ev item st =
      (rbind (fst (save_view φ r data st)) (fun _ => Ok item),
       mkState (fst (snd (save_view φ r data st))) (snd (snd (save_view φ r data st))) tr).
Proof.
  intros Hj Hl data. unfold upsert.
  destruct (getCollection_run φ r st) as (tr & Hg).
  unfold bind at 1. rewrite Hg, collection_view_records. cbn [items_of].
  destruct (upsert_records item j _ Hj Hl) as (k & Hk & Hrec).
  unfold bind at 1, lift at 1. rewrite Hk, Hrec. fold data.
  destruct (saveData_run φ r data (mkState (localStorage st) (db st) tr)) as (tr' & Hs).
  rewrite (save_view_ext φ r data _ st) in Hs by done.
  unfold bind at 1. rewrite Hs.
  destruct (fst (save_view φ r data st)) as [[]|e|]; cbn; eauto.
Qed.

Lemma outcome_getCollection φ r st prior :
  outcome (getCollection φ r) st = Ok (JArr prior) -> prior = records φ st r.
Proof.
  unfold outcome. destruct (getCollection_run φ r st) as (tr & ->). cbn.
  rewrite collection_view_records. by intros [= ->].
Qed.

Lemma get_by_id_run φ r id st :
  outcome (get_by_id φ r id) st = array_find (has_id id) (records φ st r).
Proof.
  unfold outcome, get_by_id. destruct (getCollection_run φ r st) as (tr & Hg).
  unfold bind. rewrite Hg. by rewrite collection_view_records.
Qed.

(** What a resource loads as after a save whose key-value write, transaction
    and store clearing went through: the saved value, from the key-value
    entry, since the object store is left empty. *)
Lemma load_view_after_save φ φ' r data st tr :
  writes_through φ r -> reads_through φ' r ->
  let sv := save_view φ r data st in
  load_view φ' (mkState (fst (snd sv)) (snd (snd sv)) tr) r = data.
Proof.
  intros (Hset & Hopen & Hclear) Hget sv. subst sv.
  unfold load_view, indexed_answer, keyvalue_answer, save_view. rewrite Hget, Hset.
  destruct (db st) as [stores|]; cbn.
  - destruct (is_collection r) eqn:Hr; cbn.
    + pose proof (save_indexed_store φ (store_name r) data stores Hopen Hclear) as Hstore.
      destruct (save_indexed φ (store_name r) data stores) as [res stores']. cbn in *.
      rewrite lookup_insert_eq.
      destruct (negb _ && negb _); [|done]. rewrite Hstore.
      by destruct (stores !! store_name r).
    + by rewrite lookup_insert_eq.
  - rewrite lookup_insert_eq. by destruct (is_collection r && _ && _).
Qed.

Lemma load_view_after_saveData φ φ' r data st :
  writes_through φ r -> reads_through φ' r ->
  load_view φ' (after (saveData φ r data) st) r = data.
Proof.
  intros Hw Hr. unfold after. destruct (saveData_run φ r data st) as (tr & ->).
  by apply load_view_after_save.
Qed.

(** The same for a saved list, read as the getters read it. *)
Lemma records_after_save φ φ' r l st tr :
  writes_through φ r -> reads_through φ' r ->
  let sv := save_view φ r (JArr l) st in
  records φ' (mkState (fst (snd sv)) (snd (snd sv)) tr) r = l.
Proof.
  intros Hw Hr sv. subst sv. unfold records, collection_view.
  by rewrite (load_view_after_save φ φ' r (JArr l) st tr Hw Hr).
Qed.

Lemma outcome_getCollection_after φ r st :
  outcome (getCollection φ r) st = Ok (JArr (records φ st r)).
Proof.
  unfold outcome. destruct (getCollection_run φ r st) as (tr & ->). cbn.
  by rewrite collection_view_records.
Qed.

Lemma array_filter_other_id j l :
  Forall valid_record l ->
  array_filter (has_other_id (Some (JStr j))) l =
    Ok (filter (fun t => record_id t <> Some j) l).
Proof.
  intros Hl. induction Hl as [|x l [i Hi] Hl IH]; [done|].
  cbn [array_filter]. rewrite (has_other_id_valid _ _ _ Hi), IH. cbn [rbind].
  rewrite filter_cons. rewrite Hi.
  destruct (decide (i = j)) as [->|Hne].
  - rewrite bool_decide_eq_true_2 by done. cbn [negb]. by rewrite decide_False by (by intros []).
  - rewrite bool_decide_eq_false_2 by done. cbn [negb]. by rewrite decide_True by congruence.
Qed.

Lemma filter_valid (P : value -> Prop) `{forall x, Decision (P x)} l :
  Forall valid_record l -> Forall valid_record (filter P l).
Proof.
  rewrite !Forall_forall. intros Hl x Hx. apply list_elem_of_filter in Hx as [_ Hx]. auto.
Qed.


Lemma delete_run φ r ev j st :
  Forall valid_record (records φ st r) ->
  let data := JArr (filter (fun t => record_id t <> Some j) (records φ st r)) in
  exists tr,
    delete_by_id φ r ev (Some (JStr j)) st =
      (fst (save_view φ r data st),
       mkState (fst (snd (save_view φ r data st))) (snd (snd (save_view φ r data st))) tr).
Proof.
  intros Hl data. unfold delete_by_id.
  destruct (getCollection_run φ r st) as (tr & Hg).
  unfold bind at 1. rewrite Hg, collection_view_records. cbn [items_of].
  unfold bind at 1, lift at 1. rewrite (array_filter_other_id _ _ Hl). fold data.
  destruct (saveData_run φ r data (mkState (localStorage st) (db st) tr)) as (tr' & Hs).
  rewrite (save_view_ext φ r data _ st) in Hs by done.
  unfold bind at 1. rewrite Hs.
  destruct (fst (save_view φ r data st)) as [[]|e|]; cbn; eauto.
Qed.




Lemma filter_id_upsert_list j item l :
  record_id item = Some j -> Forall valid_record l ->
  (length (filter (fun t => record_id t = Some j) l) <= 1)%nat ->
  filter (fun t => record_id t = Some j) (upsert_list j item l) = [item].
Proof.
  intros Hj Hl. induction Hl as [|x l [i Hi] Hl IH]; intros Hlen.
  - cbn [upsert_list]. by rewrite filter_cons, decide_True.
  - rewrite filter_cons in Hlen. cbn [upsert_list]. rewrite Hi in *.
    destruct (decide (Some i = Some j)) as [[= ->]|Hne].
    + rewrite filter_cons, decide_True by done. f_equal.
      cbn in Hlen. destruct (filter _ l); [done|cbn in Hlen; lia].
    + rewrite filter_cons, decide_False by (by rewrite Hi). by apply IH.
Qed.

(** One upsert of a record with id [j] into a collection of valid records
    that holds at most one record with that id: afterwards the collection
    holds valid records again, and exactly one with id [j], the one saved. *)
Lemma upsert_step φ φ' r ev st j item :
  record_id item = Some j ->
  Forall valid_record (records φ st r) ->
  (length (filter (fun t => record_id t = Some j) (records φ st r)) <= 1)%nat ->
  writes_through φ r -> reads_through φ' r ->
  let st' := after (upsert φ r ev item) st in
  Forall valid_record (records φ' st' r) /\
  filter (fun t => record_id t = Some j) (records φ' st' r) = [item].
Proof.
  intros Hj Hl Hlen Hw Hget st'. subst st'. unfold after.
  destruct (upsert_run φ r ev item j st Hj Hl) as (tr & ->). cbn [snd].
  rewrite (records_after_save φ φ' r _ st tr Hw Hget).
  split; [apply upsert_list_valid; [by eexists|done]|].
  by apply filter_id_upsert_list.
Qed.

(** ** Sequencing *)

Lemma run_pair {S A} (m : M S A) (st : S) : m st = (outcome m st, after m st).
Proof. unfold outcome, after. by destruct (m st). Qed.

Lemma bind_ok {S A B} (m : M S A) (k : A -> M S B) st a :
  outcome m st = Ok a -> bind m k st = k a (after m st).
Proof. intros H. unfold bind. rewrite (run_pair m st), H. done. Qed.



(** ** Each resource on its own *)



Lemma load_view_resource_state φ st st' r :
  resource_state st r = resource_state st' r -> load_view φ st r = load_view φ st' r.
Proof.
  unfold resource_state. intros [= Hl Hd].
  unfold load_view, indexed_answer, keyvalue_answer. by rewrite Hl, Hd.
Qed.

Lemma records_resource_state φ st st' r :
  resource_state st r = resource_state st' r -> records φ st r = records φ st' r.
Proof.
  intros H. unfold records, collection_view. by rewrite (load_view_resource_state _ _ _ _ H).
Qed.

Lemma after_saveData φ r data st :
  localStorage (after (saveData φ r data) st) = fst (snd (save_view φ r data st)) /\
  db (after (saveData φ r data) st) = snd (snd (save_view φ r data st)) /\
  outcome (saveData φ r data) st = fst (save_view φ r data st).
Proof.
  unfold after, outcome. destruct (saveData_run φ r data st) as (tr & ->). done.
Qed.

(** [saveData] never rejects: it resolves, or never settles. *)
Lemma saveData_outcome φ r data st :
  outcome (saveData φ r data) st = if never_settles φ r data st then Pending else Ok tt.
Proof.
  destruct (after_saveData φ r data st) as (_ & _ & ->). apply save_view_outcome.
Qed.






(** The key-value entry after a save. *)
Lemma saveData_entry φ r data st :
  localStorage (after (saveData φ r data) st) !! keys r =
    if φ (SetItem (keys r)) then localStorage st !! keys r else Some (Json data).
Proof.
  destruct (after_saveData φ r data st) as (Hl & _ & _). rewrite Hl. unfold save_view.
  assert ((if φ (SetItem (keys r)) then localStorage st
           else <[keys r:=Json data]> (localStorage st)) !! keys r
          = if φ (SetItem (keys r)) then localStorage st !! keys r else Some (Json data)) as H.
  { destruct (φ (SetItem (keys r))); [done|]. by rewrite lookup_insert_eq. }
  destruct (db st); [destruct (is_collection r); [destruct (save_indexed _ _ _ _)|]|]; done.
Qed.

(** ** Observations that a computation preserves *)

Lemma preserves_ret {A X} (f : state -> X) (a : A) : preserves f (ret a).
Proof. by intros st. Qed.

Lemma preserves_lift {A X} (f : state -> X) (x : result A) : preserves f (lift x).
Proof. by intros st. Qed.

Lemma preserves_bind {A B X} (f : state -> X) (m : M state A) (k : A -> M state B) :
  preserves f m -> (forall a, preserves f (k a)) -> preserves f (bind m k).
Proof.
  intros Hm Hk st. specialize (Hm st). unfold after, bind in *.
  destruct (m st) as [[a|e|] st']; cbn in *; [|done|done]. rewrite <- Hm. apply Hk.
Qed.




(** ** Frames *)




Lemma importData_unfold φ jsonData st :
  importData φ jsonData st =
    try_catch
      (data <- lift (import_document jsonData);;
       import_all φ data all_resources;;;
       dispatchEvent "dataImported" (Some data);;;
       ret (result_object true "Dados importados com sucesso!"))
      (fun error =>
         console_error "Failed to import data:";;;
         ret (result_object false ("Erro ao importar dados: " +:+ error_message error))) st.
Proof.
  unfold importData, import_document, all_resources, import_all, try_catch, bind, lift, ret.
  destruct (match jsonData with StringArg t => JSON_parse t | ValueArg v => Ok v end)
    as [data|e|]; [|done|done].
  destruct (import_resource φ data profile st) as [[[]|e|] st1]; [|done|done].
  destruct (import_resource φ data settings st1) as [[[]|e|] st2]; [|done|done].
  destruct (import_resource φ data tasks st2) as [[[]|e|] st3]; [|done|done].
  destruct (import_resource φ data objects st3) as [[[]|e|] st4]; [|done|done].
  destruct (import_resource φ data requests st4) as [[[]|e|] st5]; done.
Qed.





(** ** The import steps *)














(** ** Clearing *)



(** ** Export *)

Lemma read_run φ r st :
  outcome (read φ r) st =
    Ok (if is_collection r then collection_view φ st r else load_view φ st r).
Proof.
  unfold outcome. destruct r; cbn [read is_collection];
    unfold getProfile, getSettings, getTasks, getObjects, getRequests.
  1: by destruct (loadData_run φ profile st) as (tr & ->).
  1: by destruct (loadData_run φ settings st) as (tr & ->).
  1: by destruct (getCollection_run φ tasks st) as (tr & ->).
  1: by destruct (getCollection_run φ objects st) as (tr & ->).
  by destruct (getCollection_run φ requests st) as (tr & ->).
Qed.

Lemma exportData_run φ now st :
  exists tr,
    exportData φ now st =
      (Ok (Json (JObj [("profile", load_view φ st profile);
                       ("settings", load_view φ st settings);
                       ("tasks", collection_view φ st tasks);
                       ("objects", collection_view φ st objects);
                       ("requests", collection_view φ st requests);
                       ("exportDate", JStr now); ("version", JStr "1.0")])),
       mkState (localStorage st) (db st) tr).
Proof.
  unfold exportData, getProfile, getSettings, getTasks, getObjects, getRequests.
  destruct (loadData_run φ profile st) as (tr1 & H1).
  unfold bind at 1. rewrite H1.
  destruct (loadData_run φ settings (mkState (localStorage st) (db st) tr1)) as (tr2 & H2).
  unfold bind at 1. rewrite H2. cbn [localStorage db].
  destruct (getCollection_run φ tasks (mkState (localStorage st) (db st) tr2)) as (tr3 & H3).
  unfold bind at 1. rewrite H3. cbn [localStorage db].
  destruct (getCollection_run φ objects (mkState (localStorage st) (db st) tr3)) as (tr4 & H4).
  unfold bind at 1. rewrite H4. cbn [localStorage db].
  destruct (getCollection_run φ requests (mkState (localStorage st) (db st) tr4)) as (tr5 & H5).
  unfold bind at 1. rewrite H5. cbn [localStorage db].
  by exists tr5.
Qed.

(** ** Operations that always resolve *)









(** [saveProfile] has no object store to wait for. *)
Lemma saveProfile_run φ p st :
  saveProfile φ p st =
    (Ok tt, add_effect (Dispatched "profileUpdated" (Some p))
              (after (saveData φ profile p) st)).
Proof.
  assert (Hok : outcome (saveData φ profile p) st = Ok tt).
  { rewrite saveData_outcome. unfold never_settles, reaches_store. done. }
  unfold saveProfile. by rewrite (bind_ok _ _ _ _ Hok).
Qed.



(** A delete ends as the save of the remaining records ends. *)
Lemma delete_outcome φ r ev j st :
  Forall valid_record (records φ st r) ->
  outcome (delete_by_id φ r ev (Some (JStr j))) st =
    if never_settles φ r (JArr (filter (fun t => record_id t <> Some j) (records φ st r))) st
    then Pending else Ok tt.
Proof.
  intros Hl. unfold outcome.
  destruct (delete_run φ r ev j st Hl) as (tr & ->). cbn [fst].
  apply save_view_outcome.
Qed.

(** ** Search *)

Lemma array_filter_total (p : value -> result bool) (q : value -> bool) l :
  Forall (fun t => p t = Ok (q t)) l ->
  array_filter p l = Ok (filter (fun t => q t = true) l).
Proof.
  intros Hl. induction Hl as [|x l Hx Hl IH]; [done|].
  cbn [array_filter]. rewrite Hx, IH. cbn [rbind]. rewrite filter_cons.
  destruct (q x); [by rewrite decide_True|by rewrite decide_False].
Qed.

Lemma get_prop_field v k : v <> JNull -> get_prop v k = Ok (field k v).
Proof. by destruct v. Qed.

Lemma searchTasks_run toLowerCase φ query filters st :
  outcome (searchTasks toLowerCase φ query filters) st =
    array_filter (task_matches toLowerCase query filters) (records φ st tasks).
Proof.
  unfold outcome, searchTasks, getTasks. destruct (getCollection_run φ tasks st) as (tr & Hg).
  unfold bind. rewrite Hg. by rewrite collection_view_records.
Qed.

(** The filter test on a record that is not [null], for a filters object. *)
Lemma matches_filter_object f k ff t :
  t <> JNull ->
  matches_filter f k (JObj ff) t =
    Ok (match assoc f ff with
        | Some wanted => if truthy wanted then strict_eq (field k t) (Some wanted) else true
        | None => true
        end).
Proof.
  intros Ht. unfold matches_filter. cbn [get_prop rbind].
  destruct (assoc f ff) as [wanted|]; cbn [truthy_opt negb]; [|done].
  destruct (truthy wanted); cbn [negb]; [|done]. by rewrite get_prop_field.
Qed.

(** The query test on a task record. *)
Lemma matches_query_task toLowerCase q t :
  task_record t ->
  exists b, matches_query toLowerCase "titulo" "id" "descricao" (Some (JStr q)) t = Ok b.
Proof.
  intros ((fields & ->) & (s1 & H1) & (s2 & H2) & H3). unfold matches_query.
  cbn [truthy_opt truthy]. destruct (negb (negb (String.eqb q ""))); [eauto|].
  cbn [get_prop field] in *. rewrite H1. cbn [rbind lower_includes].
  destruct (includes _ (toLowerCase s1)); [eauto|].
  rewrite H2. cbn [rbind lower_includes].
  destruct (includes _ (toLowerCase s2)); [eauto|].
  destruct (truthy_opt (assoc "descricao" fields)) eqn:Hd; [|eauto].
  destruct (H3 eq_refl) as (s3 & ->). cbn [lower_includes]. eauto.
Qed.

Lemma task_record_not_null t : task_record t -> t <> JNull.
Proof. by intros ((fields & ->) & _). Qed.

Lemma array_filter_hits (p : value -> result bool) l :
  Forall (fun t => exists b, p t = Ok b) l ->
  array_filter p l = Ok (filter (fun t => hits p t = true) l).
Proof.
  intros Hl. apply array_filter_total. eapply Forall_impl; [exact Hl|].
  intros t [b Hb]. unfold hits. by rewrite Hb.
Qed.

Lemma task_matches_task toLowerCase q ff t :
  task_record t ->
  exists bq bf,
    task_matches toLowerCase (Some (JStr q)) (JObj []) t = Ok bq /\
    task_matches toLowerCase (Some (JStr "")) (JObj ff) t = Ok bf /\
    task_matches toLowerCase (Some (JStr q)) (JObj ff) t = Ok (bq && bf).
Proof.
  intros Ht. pose proof (task_record_not_null t Ht) as Hnn.
  destruct (matches_query_task toLowerCase q t Ht) as (bq & Hq).
  unfold task_matches. rewrite Hq, !(matches_filter_object _ _ _ _ Hnn). cbn [rbind assoc].
  assert (Hempty : matches_query toLowerCase "titulo" "id" "descricao" (Some (JStr "")) t
                   = Ok true)
    by reflexivity.
  rewrite Hempty. cbn [rbind]. eexists _, _. split; [reflexivity|]. split; [reflexivity|].
  f_equal. rewrite !andb_true_r. cbn [andb]. by rewrite !andb_assoc.
Qed.

(** ** Decimal numerals *)

Lemma round53_small z : Z.abs z < 2 ^ 53 -> round53 z = z.
Proof. intros H. unfold round53. by destruct (Z.ltb_spec (Z.abs z) (2 ^ 53)); [|lia]. Qed.

Lemma digit_val_digit_char d : 0 <= d < 10 -> digit_val 10 (digit_char d) = Some d.
Proof.
  intros Hd. assert (d = 0 \/ d = 1 \/ d = 2 \/ d = 3 \/ d = 4 \/ d = 5 \/ d = 6 \/
                     d = 7 \/ d = 8 \/ d = 9) as H by lia.
  repeat (destruct H as [->|H]; [reflexivity|]). by subst.
Qed.

Lemma is_digit_digit_char d : 0 <= d < 10 -> is_digit (digit_char d) = true.
Proof. intros Hd. unfold is_digit. by rewrite digit_val_digit_char. Qed.

(** Reading back the numeral that [decimal_aux] writes in front of [acc]. *)
Lemma digits_val_decimal_aux fuel n acc :
  0 <= n < 2 ^ Z.of_nat fuel ->
  digits_val 10 (decimal_aux fuel n acc) 0 = digits_val 10 acc n.
Proof.
  revert n acc. induction fuel as [|fuel IH]; intros n acc Hn.
  - cbn in *. by replace n with 0 by lia.
  - cbn [decimal_aux].
    assert (Hmod : 0 <= n mod 10 < 10) by (apply Z.mod_pos_bound; lia).
    assert (Hdiv : n = 10 * (n / 10) + n mod 10) by (apply Z.div_mod; lia).
    destruct (Z.eqb_spec (n / 10) 0) as [H0|Hne].
    + cbn [digits_val]. rewrite (digit_val_digit_char _ Hmod). f_equal. lia.
    + rewrite IH.
      * cbn [digits_val]. rewrite (digit_val_digit_char _ Hmod). f_equal. lia.
      * assert (0 <= n / 10) by (apply Z.div_pos; lia).
        rewrite Nat2Z.inj_succ, Z.pow_succ_r in Hn by lia.
        split; [done|]. apply Z.div_lt_upper_bound; lia.
Qed.

Lemma all_digits_decimal_aux fuel n acc :
  0 <= n -> all_digits acc = true -> all_digits (decimal_aux fuel n acc) = true.
Proof.
  revert n acc. induction fuel as [|fuel IH]; intros n acc Hn Hacc; [done|].
  cbn [decimal_aux].
  assert (Hmod : 0 <= n mod 10 < 10) by (apply Z.mod_pos_bound; lia).
  assert (Hacc' : all_digits (String (digit_char (n mod 10)) acc) = true).
  { cbn [all_digits]. by rewrite (is_digit_digit_char _ Hmod), Hacc. }
  destruct (n / 10 =? 0); [done|]. apply IH; [|done]. apply Z.div_pos; lia.
Qed.

Lemma decimal_aux_nonempty fuel n acc : decimal_aux (S fuel) n acc <> "".
Proof.
  revert n acc. induction fuel as [|fuel IH]; intros n acc.
  - cbn. by destruct (n / 10 =? 0).
  - cbn [decimal_aux]. destruct (n / 10 =? 0); [done|]. apply IH.
Qed.

Lemma String_of_number_digits n :
  0 <= n < 2 ^ 53 ->
  String_of_number n <> "" /\ all_digits (String_of_number n) = true /\
  digits_val 10 (String_of_number n) 0 = n.
Proof.
  intros Hn. unfold String_of_number, decimal. rewrite Z.abs_eq by lia.
  destruct (Z.ltb_spec n 0); [lia|]. destruct (Z.ltb_spec n (2 ^ 53)); [|lia].
  split; [apply decimal_aux_nonempty|].
  split; [apply all_digits_decimal_aux; [lia|done]|].
  rewrite digits_val_decimal_aux; [done|]. split; [lia|].
  destruct (Z.eq_dec n 0) as [->|Hne]; [done|].
  rewrite Nat2Z.inj_succ, Z2Nat.id by apply Z.log2_nonneg.
  apply Z.log2_spec. lia.
Qed.

Lemma zeros_succ k :
  String.concat "" (List.repeat "0" (S k)) = String "0" (String.concat "" (List.repeat "0" k)).
Proof. by destruct k. Qed.

Lemma padStart0_digits n s :
  s <> "" -> all_digits s = true ->
  padStart0 n s <> "" /\ all_digits (padStart0 n s) = true /\
  digits_val 10 (padStart0 n s) 0 = digits_val 10 s 0.
Proof.
  intros Hs Hd. unfold padStart0. generalize (n - String.length s)%nat as k.
  induction k as [|k (IH1 & IH2 & IH3)]; [done|].
  rewrite zeros_succ.
  change (String "0" ?a +:+ s) with (String "0" (a +:+ s)). split; [done|]. split.
  - cbn [all_digits]. by rewrite IH2.
  - cbn [digits_val]. change (digit_val 10 "0") with (Some 0). cbv iota.
    change (0 * 10 + 0) with 0. by rewrite IH3.
Qed.

Lemma is_digit_cases c :
  is_digit c = true ->
  c = "0"%char \/ c = "1"%char \/ c = "2"%char \/ c = "3"%char \/ c = "4"%char \/
  c = "5"%char \/ c = "6"%char \/ c = "7"%char \/ c = "8"%char \/ c = "9"%char.
Proof.
  destruct c as [[] [] [] [] [] [] [] []]; cbn; intros H; try discriminate H; auto 10.
Qed.

(** [parseInt] of a non-empty string of decimal digits. *)
Lemma parseInt_digits s :
  s <> "" -> all_digits s = true -> parseInt s = Some (round53 (digits_val 10 s 0)).
Proof.
  intros Hs Hd. destruct s as [|c rest]; [done|]. cbn [all_digits] in Hd.
  apply andb_true_iff in Hd as [Hc Hrest].
  assert (Hfirst : starts_with_digit 10 (String c rest) = true).
  { unfold is_digit in Hc. unfold starts_with_digit. by destruct (digit_val 10 c). }
  assert (Hws : trim_start (String c rest) = String c rest).
  { apply is_digit_cases in Hc.
    destruct Hc as [->|[->|[->|[->|[->|[->|[->|[->|[->| ->]]]]]]]]];
      by destruct rest as [|c2 [|c3 r3]]. }
  unfold parseInt. rewrite Hws.
  apply is_digit_cases in Hc.
  destruct Hc as [->|[->|[->|[->|[->|[->|[->|[->|[->| ->]]]]]]]]].
  2-10: cbv beta match zeta; rewrite Hfirst; by rewrite Z.mul_1_l.
  destruct rest as [|c2 rest2].
  - cbv beta match zeta. rewrite Hfirst. by rewrite Z.mul_1_l.
  - cbn [all_digits] in Hrest. apply andb_true_iff in Hrest as [Hc2 _].
    apply is_digit_cases in Hc2.
    destruct Hc2 as [->|[->|[->|[->|[->|[->|[->|[->|[->| ->]]]]]]]]].
    all: cbv beta match zeta; rewrite Hfirst; by rewrite Z.mul_1_l.
Qed.

Lemma parseInt_generated n :
  0 <= n < 2 ^ 53 -> parseInt (padStart0 3 (String_of_number n)) = Some n.
Proof.
  intros Hn. destruct (String_of_number_digits n) as (Hne & Hd & Hv); [done|].
  destruct (padStart0_digits 3 _ Hne Hd) as (Hne' & Hd' & Hv').
  rewrite parseInt_digits, Hv', Hv by done. f_equal. apply round53_small. lia.
Qed.

(** ** The reducer of [generateTaskId] *)

Lemma max_task_number_valid acc t :
  valid_record t ->
  max_task_number acc t =
    Ok (match task_number t with Some n => Z.max acc n | None => acc end).
Proof.
  intros [s Hs]. unfold max_task_number, task_number.
  rewrite (record_id_get_prop _ _ Hs), Hs. cbn [rbind truthy_opt truthy].
  destruct (String.eqb_spec s "") as [->|Hne]; [done|]. cbn [negb].
  destruct (startsWith "TSK" s); [|done]. by destruct (parseInt _).
Qed.

Lemma max_numeric_suffix_nonneg ts : 0 <= max_numeric_suffix ts.
Proof.
  unfold max_numeric_suffix. induction (omap task_number ts) as [|n l IH]; cbn; lia.
Qed.

Lemma array_reduce_max ts acc :
  Forall valid_record ts -> 0 <= acc ->
  array_reduce max_task_number ts acc = Ok (Z.max acc (max_numeric_suffix ts)).
Proof.
  intros Hts. revert acc. induction Hts as [|t ts Ht Hts IH]; intros acc Hacc.
  - cbn. f_equal. lia.
  - cbn [array_reduce]. rewrite (max_task_number_valid _ _ Ht). cbn [rbind].
    unfold max_numeric_suffix in *. cbn [omap list_omap].
    destruct (task_number t) as [n|]; cbn [foldr].
    + rewrite IH by lia. f_equal. lia.
    + by rewrite IH.
Qed.

Lemma task_number_le_max t ts n :
  t ∈ ts -> task_number t = Some n -> n <= max_numeric_suffix ts.
Proof.
  intros Hin Hn. unfold max_numeric_suffix.
  assert (Hn' : n ∈ omap task_number ts) by (apply list_elem_of_omap; eauto).
  induction (omap task_number ts) as [|m l IH]; [by apply elem_of_nil in Hn'|].
  cbn. apply elem_of_cons in Hn' as [->|Hn']; [lia|]. specialize (IH Hn'). lia.
Qed.

Lemma generateTaskId_run φ st :
  Forall valid_record (records φ st tasks) ->
  outcome (generateTaskId φ) st =
    Ok ("TSK" +:+ padStart0 3
          (String_of_number (js_add (max_numeric_suffix (records φ st tasks)) 1))).
Proof.
  intros Hts. unfold outcome, generateTaskId, getTasks.
  destruct (getCollection_run φ tasks st) as (tr & Hg).
  unfold bind at 1. rewrite Hg, collection_view_records. cbn [items_of].
  unfold bind, lift, ret. rewrite (array_reduce_max _ 0 Hts) by lia. cbn [fst].
  pose proof (max_numeric_suffix_nonneg (records φ st tasks)).
  by rewrite Z.max_r.
Qed.

(** * The claims *)

(** ** Upsert then get-by-id *)

(** C1: a task record [T] (an object whose [id] is the string [i]) saved
    with [saveTask] into any collection of task records is what
    [getTaskById(i)] returns afterwards.  The key-value write, the opening
    of the transaction and the clearing of the store are taken to succeed
    during the save, and the key-value read during the lookup; every other
    backend call may fail.  (The lookup is answered from the key-value
    entry: the save leaves the object store empty.) *)
Theorem saveTask_then_getTaskById φ φ' st T i prior :
  record_id T = Some i ->
  outcome (getTasks φ) st = Ok (JArr prior) ->
  Forall valid_record prior ->
  φ (SetItem (keys tasks)) = false ->
  φ (OpenTransaction "tasks" true) = false ->
  φ (StoreClear "tasks") = false ->
  φ' (GetItem (keys tasks)) = false ->
  outcome (getTaskById φ' (Some (JStr i))) (after (saveTask φ T) st) = Ok (Some T).
Proof.
  intros Hi Hprior Hvalid Hset Hopen Hclear Hget.
  apply outcome_getCollection in Hprior. subst prior.
  unfold getTaskById. rewrite get_by_id_run.
  unfold after, saveTask.
  destruct (upsert_run φ tasks "tasksUpdated" T i st Hi Hvalid) as (tr & ->).
  cbn [snd]. rewrite (records_after_save φ φ' tasks _ st tr); [|done|done].
  by apply find_upsert_list.
Qed.


Lemma saveTask_then_getTaskById_witness :
  outcome (getTaskById no_faults (Some (JStr "TSK001")))
    (after (saveTask no_faults task_TSK001) initial_state_with_db) = Ok (Some task_TSK001).
Proof.
  apply (saveTask_then_getTaskById no_faults no_faults initial_state_with_db
           task_TSK001 "TSK001" []); try reflexivity.
  constructor.
Defined.

(** ** Loading with fallback *)


Lemma indexed_yields_answer φ st r recs :
  indexed_yields φ st r recs <-> indexed_answer φ st r = Some recs.
Proof.
  unfold indexed_yields, indexed_answer. split.
  - by intros (-> & -> & -> & ->).
  - destruct (is_collection r), (φ (OpenTransaction _ _)), (φ (StoreGetAll _)); cbn;
      intros H; try done.
Qed.

(** C9: [loadData] asks the indexed backend first and returns its answer
    when that is a non-empty collection; otherwise it reads the key-value
    entry, and returns the default of the resource when the entry is absent,
    is not JSON, or cannot be read.  The defaults are the empty list for the
    three collections and fixed objects for profile and settings. *)
Theorem loadData_fallback φ st r :
  (forall recs, indexed_yields φ st r recs -> recs <> [] ->
     outcome (loadData φ r) st = Ok (JArr recs)) /\
  ((forall recs, indexed_yields φ st r recs -> recs = []) ->
     (forall v, φ (GetItem (keys r)) = false ->
        localStorage st !! keys r = Some (Json v) ->
        outcome (loadData φ r) st = Ok v) /\
     (localStorage st !! keys r = None \/
      (exists s, localStorage st !! keys r = Some (NotJson s)) \/
      φ (GetItem (keys r)) = true ->
        outcome (loadData φ r) st = Ok (getDefaultData r))) /\
  (is_collection r = true -> getDefaultData r = JArr []) /\
  getDefaultData profile =
    JObj [("nome", JStr ""); ("empresa", JStr ""); ("inicioProject", JStr "");
          ("cliente", JStr ""); ("avatar", JStr "🚀")] /\
  getDefaultData settings =
    JObj [("theme", JStr "light"); ("notifications", JBool true);
          ("autoSave", JBool true); ("language", JStr "pt-BR")].
Proof.
  unfold outcome. destruct (loadData_run φ r st) as (tr & ->). cbn [fst].
  unfold load_view. split; [|split; [|split; [|done]]].
  - intros recs Hy Hne. apply indexed_yields_answer in Hy. rewrite Hy.
    by destruct recs.
  - intros Hempty.
    assert (H : match indexed_answer φ st r with
                | Some (x :: rest) => JArr (x :: rest)
                | _ => keyvalue_answer φ st r
                end = keyvalue_answer φ st r).
    { destruct (indexed_answer φ st r) as [[|x rest]|] eqn:E; try done.
      apply indexed_yields_answer, Hempty in E. done. }
    rewrite H. unfold keyvalue_answer. split.
    + intros v -> ->. done.
    + intros [E|[[s E]|E]]; rewrite E; try done; by destruct (φ (GetItem (keys r))).
  - by destruct r.
Qed.

Lemma loadData_fallback_witness :
  outcome (loadData no_faults tasks)
    (mkState (<[keys tasks := NotJson "{oops"]> ∅)
             (Some (<["tasks" := [task_TSK001]]> ∅)) []) = Ok (JArr [task_TSK001]) /\
  outcome (loadData no_faults tasks)
    (mkState (<[keys tasks := NotJson "{oops"]> ∅) None []) = Ok (JArr []).
Proof.
  split.
  - apply (proj1 (loadData_fallback no_faults _ tasks) [task_TSK001]); [|done].
    repeat split.
  - pose proof (proj1 (proj2 (loadData_fallback no_faults
        (mkState (<[keys tasks := NotJson "{oops"]> ∅) None []) tasks))) as H.
    apply H.
    + intros recs (_ & _ & _ & Hdb). discriminate Hdb.
    + right. left. by exists "{oops".
Defined.

(** ** The collection getters *)

(** C10: whatever is persisted for a collection, [getTasks], [getObjects]
    and [getRequests] resolve with an array: the loaded value when it is an
    array, and the empty array when it is anything else. *)
Theorem getters_return_arrays φ st :
  Forall (fun getter : faults -> M state value =>
            exists l, outcome (getter φ) st = Ok (JArr l))
         [getTasks; getObjects; getRequests] /\
  Forall (fun '(getter, r) =>
            forall v, outcome (loadData φ r) st = Ok v ->
              outcome (getter φ) st = Ok (if isArray v then v else JArr []))
         [(getTasks, tasks); (getObjects, objects); (getRequests, requests)].
Proof.
  split.
  - repeat constructor.
    all: unfold getTasks, getObjects, getRequests, outcome.
    + destruct (getCollection_run φ tasks st) as (tr & ->). rewrite collection_view_records. eauto.
    + destruct (getCollection_run φ objects st) as (tr & ->). rewrite collection_view_records. eauto.
    + destruct (getCollection_run φ requests st) as (tr & ->). rewrite collection_view_records. eauto.
  - repeat constructor.
    all: intros v; unfold getTasks, getObjects, getRequests, getCollection, outcome, bind.
    all: match goal with |- context [loadData _ ?r _] =>
           destruct (loadData_run φ r st) as (tr & ->) end.
    all: cbn; by intros [= ->].
Qed.

Example getTasks_wrong_shape :
  outcome (getTasks no_faults)
    (mkState (<[keys tasks := Json (JObj [("id", JStr "TSK001")])]> ∅) None []) = Ok (JArr []).
Proof. reflexivity. Qed.

Example getRequests_wrong_shape :
  outcome (getRequests no_faults)
    (mkState (<[keys requests := Json (JStr "oops")]> ∅) None []) = Ok (JArr []).
Proof. reflexivity. Qed.

Example getObjects_wrong_shape :
  outcome (getObjects no_faults)
    (mkState (<[keys objects := Json (JNum 7)]> ∅) None []) = Ok (JArr []).
Proof. reflexivity. Qed.

(** ** Delete by id *)




Example deleteTask_last_task_never_settles :
  outcome (deleteTask no_faults (Some (JStr "TSK001")))
    (after (saveTask no_faults task_TSK001) initial_state_with_db) = Pending /\
  outcome (getTasks no_faults)
    (after (deleteTask no_faults (Some (JStr "TSK001")))
           (after (saveTask no_faults task_TSK001) initial_state_with_db)) = Ok (JArr []) /\
  outcome (deleteTask no_faults (Some (JStr "TSK001")))
    (after (saveTask no_faults task_TSK001) initial_state) = Ok tt.
Proof. repeat split; reflexivity. Qed.

(** ** Upsert replaces *)

(** C6: two saves of objects with the same id [j], into a collection of
    object records that holds that id at most once, leave exactly one stored
    object with id [j], the one saved last; already after the first save
    there is exactly one.  (The writes of each save and the key-value read of
    each load are taken to succeed.) *)
Theorem saveObject_replaces φ1 φ2 φ' st j o1 o2 prior :
  record_id o1 = Some j -> record_id o2 = Some j ->
  outcome (getObjects φ1) st = Ok (JArr prior) ->
  Forall valid_record prior ->
  (length (filter (fun t => record_id t = Some j) prior) <= 1)%nat ->
  writes_through φ1 objects -> writes_through φ2 objects ->
  reads_through φ2 objects -> reads_through φ' objects ->
  exists l1 l2,
    outcome (getObjects φ2) (after (saveObject φ1 o1) st) = Ok (JArr l1) /\
    filter (fun t => record_id t = Some j) l1 = [o1] /\
    outcome (getObjects φ') (after (saveObject φ2 o2) (after (saveObject φ1 o1) st))
      = Ok (JArr l2) /\
    filter (fun t => record_id t = Some j) l2 = [o2].
Proof.
  intros H1 H2 Hprior Hvalid Hlen Hw1 Hw2 Hr2 Hr'.
  apply outcome_getCollection in Hprior. subst prior.
  unfold getObjects, saveObject. rewrite !outcome_getCollection_after.
  destruct (upsert_step φ1 φ2 objects "objectsUpdated" st j o1 H1 Hvalid Hlen Hw1 Hr2)
    as (Hv1 & Hf1).
  set (st1 := after (upsert φ1 objects "objectsUpdated" o1) st) in *.
  assert (Hlen1 : (length (filter (fun t => record_id t = Some j) (records φ2 st1 objects))
                   <= 1)%nat) by by rewrite Hf1.
  destruct (upsert_step φ2 φ' objects "objectsUpdated" st1 j o2 H2 Hv1 Hlen1 Hw2 Hr')
    as (_ & Hf2).
  eauto 10.
Qed.

Lemma saveObject_replaces_witness :
  exists l1 l2,
    outcome (getObjects no_faults) (after (saveObject no_faults object_ZEXIT01) initial_state)
      = Ok (JArr l1) /\
    filter (fun t => record_id t = Some "ZEXIT01") l1 = [object_ZEXIT01] /\
    outcome (getObjects no_faults)
      (after (saveObject no_faults object_ZEXIT01_converted)
             (after (saveObject no_faults object_ZEXIT01) initial_state))
      = Ok (JArr l2) /\
    filter (fun t => record_id t = Some "ZEXIT01") l2 = [object_ZEXIT01_converted].
Proof.
  apply (saveObject_replaces no_faults no_faults no_faults initial_state "ZEXIT01"
           object_ZEXIT01 object_ZEXIT01_converted []); try reflexivity.
  - constructor.
  - cbn. lia.
  - repeat split.
  - repeat split.
Defined.

Example saveObject_twice_ZEXIT01 :
  outcome (getObjects no_faults)
    (after (saveObject no_faults object_ZEXIT01_converted)
           (after (saveObject no_faults object_ZEXIT01) initial_state_with_db))
    = Ok (JArr [object_ZEXIT01_converted]) /\
  get_prop object_ZEXIT01_converted "status" = Ok (Some (JStr "convertido")).
Proof. split; reflexivity. Qed.

(** ** Import *)




Example importData_empty_objects_never_settles :
  outcome (importData no_faults (StringArg (Json backup_tasks_objects)))
    initial_state_with_db = Pending /\
  localStorage (after (importData no_faults (StringArg (Json backup_tasks_objects)))
                      initial_state_with_db) !! keys objects = Some (Json (JArr [])) /\
  trace (after (importData no_faults (StringArg (Json backup_tasks_objects)))
               initial_state_with_db)
    = [ConsoleError "Failed to save tasks to IndexedDB:"].
Proof. repeat split; reflexivity. Qed.

(** ** Export, clear, import *)




Example roundtrip_with_database_never_settles :
  exists doc,
    outcome (exportData no_faults "2024-05-01T10:00:00.000Z") populated_state_with_db = Ok doc /\
    outcome (importData no_faults (StringArg doc))
      (after (clearAllData no_faults)
             (after (exportData no_faults "2024-05-01T10:00:00.000Z") populated_state_with_db))
      = Pending /\
    outcome (read no_faults tasks)
      (export_clear_import "2024-05-01T10:00:00.000Z" doc populated_state_with_db)
      = Ok (JArr [task_TSK001]).
Proof. eexists. repeat split; vm_compute; reflexivity. Qed.

(** ** Failure semantics *)




Example saveData_logs_the_finished_transaction :
  saveData no_faults tasks (JArr [task_TSK001]) initial_state_with_db =
    (Ok tt,
     mkState (<[keys tasks := Json (JArr [task_TSK001])]> ∅)
             (db initial_state_with_db)
             [ConsoleError "Failed to save tasks to IndexedDB:"]).
Proof. vm_compute. reflexivity. Qed.

(** ** Search *)

(** C8, as stated, fails for the empty filter value, which the task list
    passes when no status is chosen: the search then returns every record,
    not the records whose status is the empty string. *)
Lemma searchTasks_empty_status_counterexample :
  ~ status_filter_selects ascii_toLowerCase no_faults populated_state (JStr "").
Proof.
  intros H. specialize (H [task_TSK001] eq_refl). vm_compute in H. discriminate H.
Qed.

(** C8, amended: whatever the lower-case mapping is, on a collection
    without [null] entries a search with only a truthy status filter returns
    exactly the records whose status equals it, in order; and on a
    collection of task records (objects whose [titulo] and [id] are strings
    and whose [descricao], when truthy, is a string) a search with a text
    query and any filters returns exactly the records that the query alone
    and the filters alone both return. *)
Theorem searchTasks_filters toLowerCase φ st ts :
  outcome (getTasks φ) st = Ok (JArr ts) ->
  (Forall (fun t => t <> JNull) ts ->
   forall s, truthy s = true ->
     outcome (searchTasks toLowerCase φ (Some (JStr "")) (JObj [("status", s)])) st
       = Ok (filter (fun t => strict_eq (field "status" t) (Some s) = true) ts)) /\
  (Forall task_record ts ->
   forall q ff, exists A B C,
     outcome (searchTasks toLowerCase φ (Some (JStr q)) (JObj [])) st = Ok A /\
     outcome (searchTasks toLowerCase φ (Some (JStr "")) (JObj ff)) st = Ok B /\
     outcome (searchTasks toLowerCase φ (Some (JStr q)) (JObj ff)) st = Ok C /\
     forall t, t ∈ C <-> t ∈ A /\ t ∈ B).
Proof.
  intros Hts. apply outcome_getCollection in Hts. subst ts.
  set (ts := records φ st tasks). split.
  - intros Hnn s Hs. rewrite searchTasks_run. fold ts.
    apply array_filter_total. eapply Forall_impl; [exact Hnn|].
    intros t Ht. unfold task_matches.
    rewrite !(matches_filter_object _ _ _ _ Ht). cbn. rewrite Hs.
    by rewrite !andb_true_r.
  - intros Hrec q ff. rewrite !searchTasks_run. fold ts.
    rewrite !array_filter_hits.
    2-4: eapply Forall_impl; [exact Hrec|]; intros t Ht;
      destruct (task_matches_task toLowerCase q ff t Ht) as (bq & bf & Hq & Hf & Hc); eauto.
    eexists _, _, _. split; [reflexivity|]. split; [reflexivity|]. split; [reflexivity|].
    intros t. rewrite !list_elem_of_filter.
    split.
    + intros [Hhit Hin]. rewrite Forall_forall in Hrec.
      destruct (task_matches_task toLowerCase q ff t (Hrec t Hin))
        as (bq & bf & Hq & Hf & Hc).
      unfold hits in *. rewrite Hq, Hf. rewrite Hc in Hhit.
      apply andb_true_iff in Hhit as [-> ->]. done.
    + intros [[Hq Hin] [Hf _]]. split; [|done]. rewrite Forall_forall in Hrec.
      destruct (task_matches_task toLowerCase q ff t (Hrec t Hin))
        as (bq & bf & Hq' & Hf' & Hc).
      unfold hits in *. rewrite Hq' in Hq. rewrite Hf' in Hf. rewrite Hc. by subst.
Qed.

Lemma searchTasks_filters_witness :
  outcome (searchTasks ascii_toLowerCase no_faults (Some (JStr ""))
             (JObj [("status", JStr "planejado")]))
    populated_state = Ok [task_TSK001] /\
  outcome (searchTasks ascii_toLowerCase no_faults (Some (JStr ""))
             (JObj [("status", JStr "concluido")]))
    populated_state = Ok [].
Proof.
  destruct (searchTasks_filters ascii_toLowerCase no_faults populated_state [task_TSK001]
              eq_refl) as [H _].
  split.
  - apply (H ltac:(by repeat constructor) (JStr "planejado") eq_refl).
  - apply (H ltac:(by repeat constructor) (JStr "concluido") eq_refl).
Defined.

Example searchTasks_rejects_without_titulo :
  outcome (searchTasks ascii_toLowerCase no_faults (Some (JStr "cutover")) (JObj []))
    (after (saveTask no_faults (JObj [("id", JStr "TSK002")])) initial_state)
    = Throw TypeError.
Proof. reflexivity. Qed.

(** ** Task id generation *)

(** C4, as stated, fails at the precision limit of numbers: with the id
    [TSK9007199254740992] (suffix [2^53]) stored, the successor of the
    maximum rounds back to [2^53] and the same id is generated again. *)
Lemma generateTaskId_duplicate_counterexample :
  ~ generated_id_is_fresh no_faults big_suffix_state.
Proof.
  intros H.
  apply (H [JObj [("id", JStr "TSK9007199254740992"); ("titulo", JStr "Cutover")]]
           "TSK9007199254740992").
  - reflexivity.
  - vm_compute. reflexivity.
  - cbn. left.
Qed.

(** C4, amended: for a collection of task records whose numeric suffixes
    stay below [2^53 - 1], [generateTaskId] returns [TSK] followed by the
    successor of the maximum numeric suffix among the ids that start with
    [TSK], padded with zeros to three digits; that id is the id of no task in
    the collection, and it is [TSK001] for the empty collection. *)
Theorem generateTaskId_fresh φ st ts :
  outcome (getTasks φ) st = Ok (JArr ts) ->
  Forall valid_record ts ->
  max_numeric_suffix ts < 2 ^ 53 - 1 ->
  exists id,
    outcome (generateTaskId φ) st = Ok id /\
    id = "TSK" +:+ padStart0 3 (String_of_number (max_numeric_suffix ts + 1)) /\
    (id ∉ ids ts) /\
    (ts = [] -> id = "TSK001").
Proof.
  intros Hts Hvalid Hbound. apply outcome_getCollection in Hts. subst ts.
  set (ts := records φ st tasks) in *.
  pose proof (max_numeric_suffix_nonneg ts) as Hnn.
  eexists. split; [by apply generateTaskId_run|]. fold ts.
  assert (Hadd : js_add (max_numeric_suffix ts) 1 = max_numeric_suffix ts + 1)
    by (unfold js_add; apply round53_small; lia).
  rewrite Hadd. split; [done|]. split.
  - intros Hin. unfold ids in Hin. apply list_elem_of_omap in Hin as (t & Hin & Hid).
    assert (Hnum : task_number t = Some (max_numeric_suffix ts + 1)).
    { unfold task_number. rewrite Hid.
      change (startsWith "TSK" ("TSK" +:+ ?x)) with true. cbv iota.
      change (remove_prefix "TSK" ("TSK" +:+ ?x)) with x.
      rewrite parseInt_generated by lia. done. }
    pose proof (task_number_le_max t ts _ Hin Hnum). lia.
  - intros Hempty. subst ts. rewrite Hempty. reflexivity.
Qed.

Lemma generateTaskId_fresh_witness :
  exists id,
    outcome (generateTaskId no_faults) populated_state = Ok id /\
    id = "TSK002" /\ id ∉ ids [task_TSK001].
Proof.
  destruct (generateTaskId_fresh no_faults populated_state [task_TSK001])
    as (id & Hout & Hid & Hfresh & _).
  - reflexivity.
  - repeat constructor. by exists "TSK001".
  - vm_compute. reflexivity.
  - exists id. split; [exact Hout|]. split; [|exact Hfresh].
    rewrite Hid. vm_compute. reflexivity.
Defined.

Example generateTaskId_empty :
  outcome (generateTaskId no_faults) initial_state = Ok "TSK001".
Proof. reflexivity. Qed.

(** [parseInt] skips a no-break space (U+00A0, two bytes) in front of the
    digits, so the suffix of [TSK 7] written with one counts as [7]. *)
Example generateTaskId_skips_no_break_space :
  outcome (generateTaskId no_faults)
    (after (saveTask no_faults
              (JObj [("id", JStr ("TSK" +:+ String "194" (String "160" "7")))]))
           initial_state) = Ok "TSK008".
Proof. vm_compute. reflexivity. Qed.
(** * Further properties of the facade and its callers *)

(** ** Profile *)

Lemma last_snoc_effect (l : list effect) e : last (l ++ [e]) = Some e.
Proof. apply last_snoc. Qed.

(** [saveProfile] always resolves, whatever fails, and the last thing it
    does is to announce the profile it was given; when the key-value write
    and the later read go through, [getProfile] then returns that very
    value, whatever it is. *)
Theorem saveProfile_then_getProfile φ φ' st p :
  outcome (saveProfile φ p) st = Ok tt /\
  last (trace (after (saveProfile φ p) st)) = Some (Dispatched "profileUpdated" (Some p)) /\
  (φ (SetItem (keys profile)) = false -> φ' (GetItem (keys profile)) = false ->
   outcome (getProfile φ') (after (saveProfile φ p) st) = Ok p).
Proof.
  pose proof (saveProfile_run φ p st) as Hrun.
  assert (Hafter : after (saveProfile φ p) st =
                   add_effect (Dispatched "profileUpdated" (Some p))
                     (after (saveData φ profile p) st))
    by (unfold after at 1; by rewrite Hrun).
  rewrite Hafter. split; [unfold outcome; by rewrite Hrun|]. split.
  - cbn [add_effect trace]. apply last_snoc_effect.
  - intros Hset Hget. unfold getProfile, outcome.
    destruct (loadData_run φ' profile
                (add_effect (Dispatched "profileUpdated" (Some p))
                   (after (saveData φ profile p) st))) as (tr & ->).
    cbn [fst]. unfold load_view, indexed_answer, keyvalue_answer.
    cbn [is_collection andb add_effect localStorage]. rewrite Hget.
    pose proof (saveData_entry φ profile p st) as He. rewrite Hset in He. by rewrite He.
Qed.

Lemma saveProfile_then_getProfile_witness :
  outcome (saveProfile (fun _ => true) JNull) populated_state_with_db = Ok tt /\
  outcome (getProfile no_faults) (after (saveProfile no_faults JNull) populated_state)
    = Ok JNull.
Proof.
  split.
  - apply (saveProfile_then_getProfile (fun _ => true) no_faults populated_state_with_db JNull).
  - apply (saveProfile_then_getProfile no_faults no_faults populated_state JNull);
      reflexivity.
Defined.

(** ** Get-by-id, delete and upsert on the collections *)

Lemma find_absent j l :
  Forall valid_record l -> j ∉ ids l -> array_find (has_id (Some (JStr j))) l = Ok None.
Proof.
  intros Hl. induction Hl as [|x l [i Hi] Hl IH]; intros Hnotin; [done|].
  rewrite (ids_cons_valid _ _ _ Hi) in Hnotin. apply not_elem_of_cons in Hnotin as [Hne Hnotin].
  cbn [array_find]. rewrite (has_id_valid _ _ _ Hi). cbn [rbind].
  rewrite bool_decide_eq_false_2 by congruence. by apply IH.
Qed.

Lemma ids_filter_other j l : j ∉ ids (filter (fun t => record_id t <> Some j) l).
Proof.
  intros Hin. unfold ids in Hin. apply list_elem_of_omap in Hin as (t & Ht & Hid).
  apply list_elem_of_filter in Ht as [Hne _]. done.
Qed.

(** What a collection reads as after [delete_by_id]. *)
Lemma records_after_delete φ φ' r ev j st :
  Forall valid_record (records φ st r) ->
  writes_through φ r -> reads_through φ' r ->
  records φ' (after (delete_by_id φ r ev (Some (JStr j))) st) r
    = filter (fun t => record_id t <> Some j) (records φ st r).
Proof.
  intros Hl Hw Hget. unfold after.
  destruct (delete_run φ r ev j st Hl) as (tr & ->). cbn [snd].
  by apply records_after_save.
Qed.

(** [deleteTask] and [deleteObject] resolve, or never settle when the
    object store is there and no record remains; either way, a lookup of
    the deleted id in the state they leave finds nothing. *)
Theorem delete_then_get_by_id φ φ' st j :
  Forall (fun '(delete, get, r) =>
            forall prior,
              outcome (read φ r) st = Ok (JArr prior) -> Forall valid_record prior ->
              writes_through φ r -> reads_through φ' r ->
              outcome (get φ' (Some (JStr j))) (after (delete φ (Some (JStr j))) st)
                = Ok None /\
              outcome (delete φ (Some (JStr j))) st =
                match filter (fun t => record_id t <> Some j) prior with
                | [] => if has_store st (store_name r) then Pending else Ok tt
                | _ :: _ => Ok tt
                end)
         [(deleteTask, getTaskById, tasks); (deleteObject, getObjectById, objects)].
Proof.
  constructor; [|constructor; [|constructor]].
  all: intros prior Hprior Hvalid Hw Hr.
  all: apply outcome_getCollection in Hprior; subst prior.
  all: unfold getTaskById, getObjectById, deleteTask, deleteObject.
  all: split.
  1,3: rewrite get_by_id_run, records_after_delete by done;
       apply find_absent; [by apply filter_valid|apply ids_filter_other].
  all: rewrite delete_outcome by done.
  all: unfold never_settles, reaches_store; destruct Hw as (_ & -> & ->).
  all: cbn [is_collection andb negb]; rewrite !andb_true_r.
  all: by destruct (filter _ _), (has_store st _).
Qed.

Lemma delete_then_get_by_id_witness :
  outcome (getObjectById no_faults (Some (JStr "ZEXIT01")))
    (after (deleteObject no_faults (Some (JStr "ZEXIT01")))
           (after (saveObject no_faults object_ZREPORT) populated_state_with_db)) = Ok None /\
  outcome (deleteObject no_faults (Some (JStr "ZEXIT01")))
    (after (saveObject no_faults object_ZREPORT) populated_state_with_db) = Ok tt.
Proof.
  pose proof (delete_then_get_by_id no_faults no_faults
                (after (saveObject no_faults object_ZREPORT) populated_state_with_db)
                "ZEXIT01") as H.
  apply Forall_cons in H as [_ H]. apply Forall_cons in H as [H _].
  apply (H [object_ZEXIT01; object_ZREPORT]); [reflexivity| |repeat split|reflexivity].
  repeat constructor; by eexists.
Defined.

Lemma ids_upsert_list j item l :
  record_id item = Some j -> Forall valid_record l ->
  ids (upsert_list j item l) = if decide (j ∈ ids l) then ids l else ids l ++ [j].
Proof.
  intros Hj Hl. induction Hl as [|x l [i Hi] Hl IH].
  - cbn [upsert_list]. rewrite (ids_cons_valid _ _ _ Hj).
    rewrite decide_False by (cbn; apply not_elem_of_nil). done.
  - cbn [upsert_list]. rewrite (ids_cons_valid _ _ _ Hi), Hi.
    destruct (decide (Some i = Some j)) as [[= ->]|Hne].
    + rewrite (ids_cons_valid _ _ _ Hj). rewrite decide_True by left. done.
    + rewrite (ids_cons_valid _ _ _ Hi), IH.
      destruct (decide (j ∈ ids l)) as [Hin|Hnotin].
      * rewrite decide_True by (by right). done.
      * rewrite decide_False; [done|].
        intros Hin. apply elem_of_cons in Hin as [->|Hin]; [by apply Hne|done].
Qed.

Lemma length_ids_valid l : Forall valid_record l -> length (ids l) = length l.
Proof.
  intros Hl. induction Hl as [|x l [i Hi] Hl IH]; [done|].
  rewrite (ids_cons_valid _ _ _ Hi). cbn. by rewrite IH.
Qed.

Lemma NoDup_ids_upsert_list j item l :
  record_id item = Some j -> Forall valid_record l -> NoDup (ids l) ->
  NoDup (ids (upsert_list j item l)).
Proof.
  intros Hj Hl Hnd. rewrite (ids_upsert_list _ _ _ Hj Hl).
  destruct (decide (j ∈ ids l)) as [Hin|Hnotin]; [done|].
  apply NoDup_app. split; [done|]. split; [|apply NoDup_singleton].
  intros x Hx Hx'. apply list_elem_of_singleton in Hx'. by subst.
Qed.

Lemma find_upsert_other j k item l :
  k <> j -> record_id item = Some j -> Forall valid_record l ->
  array_find (has_id (Some (JStr k))) (upsert_list j item l)
    = array_find (has_id (Some (JStr k))) l.
Proof.
  intros Hne Hj Hl. induction Hl as [|x l [i Hi] Hl IH].
  - cbn [upsert_list array_find]. rewrite (has_id_valid _ _ _ Hj). cbn [rbind].
    by rewrite bool_decide_eq_false_2 by congruence.
  - cbn [upsert_list]. rewrite Hi. destruct (decide (Some i = Some j)) as [[= ->]|Hne'].
    + cbn [array_find]. rewrite (has_id_valid _ _ _ Hj), (has_id_valid _ _ _ Hi).
      cbn [rbind]. by rewrite bool_decide_eq_false_2 by congruence.
    + cbn [array_find]. rewrite (has_id_valid _ _ _ Hi). cbn [rbind].
      by destruct (bool_decide (i = k)).
Qed.

(** What a collection reads as after an upsert: the list with the record
    replaced or appended. *)
Lemma records_after_upsert φ φ' r ev item j st :
  record_id item = Some j -> Forall valid_record (records φ st r) ->
  writes_through φ r -> reads_through φ' r ->
  records φ' (after (upsert φ r ev item) st) r = upsert_list j item (records φ st r).
Proof.
  intros Hj Hl Hw Hget. unfold after.
  destruct (upsert_run φ r ev item j st Hj Hl) as (tr & ->). cbn [snd].
  by apply records_after_save.
Qed.

(** An object saved with [saveObject] is what [getObjectById] returns for
    its id, and a request saved with [saveRequest] is among the requests
    [getRequests] returns. *)
Theorem saveObject_then_getObjectById φ φ' st item j :
  record_id item = Some j ->
  (forall prior,
     outcome (getObjects φ) st = Ok (JArr prior) -> Forall valid_record prior ->
     writes_through φ objects -> reads_through φ' objects ->
     outcome (getObjectById φ' (Some (JStr j))) (after (saveObject φ item) st)
       = Ok (Some item)) /\
  (forall prior,
     outcome (getRequests φ) st = Ok (JArr prior) -> Forall valid_record prior ->
     writes_through φ requests -> reads_through φ' requests ->
     exists l, outcome (getRequests φ') (after (saveRequest φ item) st) = Ok (JArr l) /\
               item ∈ l).
Proof.
  intros Hj. split.
  - intros prior Hprior Hvalid Hw Hr. apply outcome_getCollection in Hprior. subst prior.
    unfold getObjectById, saveObject. rewrite get_by_id_run.
    rewrite (records_after_upsert φ φ' objects _ item j st Hj Hvalid Hw Hr).
    by apply find_upsert_list.
  - intros prior Hprior Hvalid Hw Hr. apply outcome_getCollection in Hprior. subst prior.
    unfold getRequests, saveRequest. rewrite outcome_getCollection_after.
    eexists. split; [reflexivity|].
    rewrite (records_after_upsert φ φ' requests _ item j st Hj Hvalid Hw Hr).
    apply elem_of_upsert_list.
Qed.

Lemma saveObject_then_getObjectById_witness :
  outcome (getObjectById no_faults (Some (JStr "ZREPORT")))
    (after (saveObject no_faults object_ZREPORT) populated_state_with_db)
    = Ok (Some object_ZREPORT).
Proof.
  destruct (saveObject_then_getObjectById no_faults no_faults populated_state_with_db
              object_ZREPORT "ZREPORT" eq_refl) as [H _].
  apply (H [object_ZEXIT01]); [reflexivity| |repeat split|reflexivity].
  repeat constructor. by exists "ZEXIT01".
Defined.

(** An upsert leaves every other id as it was: a lookup of an id other than
    the saved one returns after [saveTask] ([saveObject]) what it returned
    before. *)
Theorem upsert_keeps_other_ids φ φ' st item j k :
  record_id item = Some j -> k <> j ->
  Forall (fun '(save, get, r) =>
            forall prior,
              outcome (read φ r) st = Ok (JArr prior) -> Forall valid_record prior ->
              writes_through φ r -> reads_through φ' r ->
              outcome (get φ' (Some (JStr k))) (after (save φ item) st)
                = outcome (get φ (Some (JStr k))) st)
         [(saveTask, getTaskById, tasks); (saveObject, getObjectById, objects)].
Proof.
  intros Hj Hne. repeat constructor.
  all: intros prior Hprior Hvalid Hw Hr.
  all: apply outcome_getCollection in Hprior; subst prior.
  all: unfold getTaskById, getObjectById, saveTask, saveObject; rewrite !get_by_id_run.
  1: rewrite (records_after_upsert φ φ' tasks _ item j st Hj Hvalid Hw Hr).
  2: rewrite (records_after_upsert φ φ' objects _ item j st Hj Hvalid Hw Hr).
  all: by apply find_upsert_other.
Qed.

Lemma upsert_keeps_other_ids_witness :
  outcome (getTaskById no_faults (Some (JStr "TSK001")))
    (after (saveTask no_faults
              (JObj [("id", JStr "TSK002"); ("titulo", JStr "Testes integrados")]))
           populated_state_with_db)
    = Ok (Some task_TSK001).
Proof.
  pose proof (upsert_keeps_other_ids no_faults no_faults populated_state_with_db
                (JObj [("id", JStr "TSK002"); ("titulo", JStr "Testes integrados")])
                "TSK002" "TSK001" eq_refl ltac:(discriminate)) as H.
  apply Forall_cons in H as [H _].
  rewrite (H [task_TSK001]); [reflexivity|reflexivity| |repeat split|reflexivity].
  repeat constructor. by exists "TSK001".
Defined.

(** An upsert into a collection with distinct ids keeps the ids distinct;
    the collection keeps its length when the id was there and grows by one
    when it was not. *)
Theorem upsert_keeps_ids_distinct φ φ' st item j :
  record_id item = Some j ->
  Forall (fun '(save, r) =>
            forall prior,
              outcome (read φ r) st = Ok (JArr prior) ->
              Forall valid_record prior -> NoDup (ids prior) ->
              writes_through φ r -> reads_through φ' r ->
              exists l,
                outcome (read φ' r) (after (save φ item) st) = Ok (JArr l) /\
                Forall valid_record l /\ NoDup (ids l) /\ item ∈ l /\
                length l = if decide (j ∈ ids prior) then length prior
                           else S (length prior))
         [(saveTask, tasks); (saveObject, objects); (saveRequest, requests)].
Proof.
  intros Hj. repeat constructor.
  all: intros prior Hprior Hvalid Hnd Hw Hr.
  all: apply outcome_getCollection in Hprior; subst prior.
  all: rewrite read_run; cbn [is_collection]; rewrite collection_view_records.
  all: eexists; split; [reflexivity|].
  all: unfold saveTask, saveObject, saveRequest.
  all: rewrite (records_after_upsert φ φ' _ _ item j st Hj Hvalid Hw Hr).
  all: split; [apply upsert_list_valid; [by eexists|done]|].
  all: split; [by apply NoDup_ids_upsert_list|].
  all: split; [apply elem_of_upsert_list|].
  all: rewrite <- !length_ids_valid, (ids_upsert_list _ _ _ Hj Hvalid);
    [|done|apply upsert_list_valid; [by eexists|done]].
  all: destruct (decide (j ∈ ids _)); [done|]; rewrite length_app; cbn; lia.
Qed.

Lemma upsert_keeps_ids_distinct_witness :
  exists l,
    outcome (read no_faults objects)
      (after (saveObject no_faults object_ZREPORT) populated_state_with_db) = Ok (JArr l) /\
    NoDup (ids l) /\ length l = 2%nat.
Proof.
  pose proof (upsert_keeps_ids_distinct no_faults no_faults populated_state_with_db
                object_ZREPORT "ZREPORT" eq_refl) as H.
  apply Forall_cons in H as [_ H]. apply Forall_cons in H as [H _].
  destruct (H [object_ZEXIT01]) as (l & Hl & _ & Hnd & _ & Hlen).
  - reflexivity.
  - repeat constructor. by exists "ZEXIT01".
  - apply (bool_decide_unpack _). by vm_compute.
  - repeat split.
  - reflexivity.
  - exists l. split; [exact Hl|]. split; [exact Hnd|]. exact Hlen.
Defined.

(** ** Search *)

Lemma searchObjects_run toLowerCase φ query filters st :
  outcome (searchObjects toLowerCase φ query filters) st =
    array_filter (object_matches toLowerCase query filters) (records φ st objects).
Proof.
  unfold outcome, searchObjects, getObjects.
  destruct (getCollection_run φ objects st) as (tr & Hg).
  unfold bind. rewrite Hg. by rewrite collection_view_records.
Qed.

Lemma array_filter_all (p : value -> result bool) l :
  (forall t, p t = Ok true) -> array_filter p l = Ok l.
Proof.
  intros Hp. induction l as [|x l IH]; [done|].
  cbn [array_filter]. rewrite Hp, IH. done.
Qed.

Lemma matches_filter_no_filter f k ff t :
  no_filter ff -> matches_filter f k (JObj ff) t = Ok true.
Proof.
  intros Hff. unfold matches_filter. cbn [get_prop rbind].
  destruct (assoc f ff) as [v|] eqn:Hv; [|done].
  cbn [truthy_opt]. by rewrite (Hff _ _ Hv).
Qed.

(** A search with an empty (or missing) query and filters that hold no
    truthy value returns the whole collection in its order, whatever the
    records are: for tasks and for objects. *)
Theorem search_without_criteria_returns_all toLowerCase φ st query ff :
  truthy_opt query = false -> no_filter ff ->
  (forall ts, outcome (getTasks φ) st = Ok (JArr ts) ->
     outcome (searchTasks toLowerCase φ query (JObj ff)) st = Ok ts) /\
  (forall os, outcome (getObjects φ) st = Ok (JArr os) ->
     outcome (searchObjects toLowerCase φ query (JObj ff)) st = Ok os).
Proof.
  intros Hq Hff. split.
  - intros ts Hts. apply outcome_getCollection in Hts. subst ts.
    rewrite searchTasks_run. apply array_filter_all. intros t.
    unfold task_matches, matches_query. rewrite Hq, !(matches_filter_no_filter _ _ _ _ Hff).
    done.
  - intros os Hos. apply outcome_getCollection in Hos. subst os.
    rewrite searchObjects_run. apply array_filter_all. intros t.
    unfold object_matches, matches_query. rewrite Hq, !(matches_filter_no_filter _ _ _ _ Hff).
    done.
Qed.

Lemma search_without_criteria_returns_all_witness :
  outcome (searchTasks ascii_toLowerCase no_faults (Some (JStr ""))
             (JObj [("status", JStr ""); ("priority", JStr "")])) populated_state
    = Ok [task_TSK001].
Proof.
  destruct (search_without_criteria_returns_all ascii_toLowerCase no_faults populated_state
              (Some (JStr "")) [("status", JStr ""); ("priority", JStr "")]) as [H _].
  - reflexivity.
  - intros k v Hk. cbn in Hk.
    destruct (String.eqb k "status"); [by injection Hk as <-|].
    destruct (String.eqb k "priority"); [by injection Hk as <-|]. discriminate Hk.
  - by apply H.
Defined.

Lemma array_filter_sublist (p : value -> result bool) l r :
  array_filter p l = Ok r -> r `sublist_of` l.
Proof.
  revert r. induction l as [|x l IH]; intros r H.
  - injection H as <-. constructor.
  - cbn [array_filter] in H. destruct (p x) as [b| |]; [|done|done]. cbn [rbind] in H.
    destruct (array_filter p l) as [kept| |]; [|done|done]. cbn [rbind] in H.
    injection H as <-. destruct b; [by apply sublist_skip, IH | by apply sublist_cons, IH].
Qed.

(** Whatever the query and the filters, a search that resolves returns
    records of the collection, in the collection's order, each at most as
    often as it is stored. *)
Theorem search_returns_sublist toLowerCase φ st query filters :
  (forall ts found, outcome (getTasks φ) st = Ok (JArr ts) ->
     outcome (searchTasks toLowerCase φ query filters) st = Ok found ->
     found `sublist_of` ts) /\
  (forall os found, outcome (getObjects φ) st = Ok (JArr os) ->
     outcome (searchObjects toLowerCase φ query filters) st = Ok found ->
     found `sublist_of` os).
Proof.
  split.
  - intros ts found Hts Hfound. apply outcome_getCollection in Hts. subst ts.
    rewrite searchTasks_run in Hfound. by eapply array_filter_sublist.
  - intros os found Hos Hfound. apply outcome_getCollection in Hos. subst os.
    rewrite searchObjects_run in Hfound. by eapply array_filter_sublist.
Qed.

Lemma search_returns_sublist_witness :
  outcome (searchTasks ascii_toLowerCase no_faults (Some (JStr "objetos"))
             (JObj [("priority", JStr "alta")])) populated_state = Ok [task_TSK001] /\
  [task_TSK001] `sublist_of` [task_TSK001].
Proof.
  split; [reflexivity|].
  destruct (search_returns_sublist ascii_toLowerCase no_faults populated_state
              (Some (JStr "objetos")) (JObj [("priority", JStr "alta")])) as [H _].
  apply (H [task_TSK001] [task_TSK001]); reflexivity.
Defined.

Lemma lower_includes_case toLowerCase field q q' :
  toLowerCase q = toLowerCase q' ->
  lower_includes toLowerCase field (Some (JStr q))
    = lower_includes toLowerCase field (Some (JStr q')).
Proof. intros H. unfold lower_includes. by rewrite H. Qed.

Lemma matches_query_case toLowerCase fa fb fc q q' t :
  toLowerCase q = toLowerCase q' -> (q = "" <-> q' = "") ->
  matches_query toLowerCase fa fb fc (Some (JStr q)) t
    = matches_query toLowerCase fa fb fc (Some (JStr q')) t.
Proof.
  intros H Hempty. unfold matches_query.
  assert (Htruthy : truthy_opt (Some (JStr q)) = truthy_opt (Some (JStr q'))).
  { cbn. destruct (String.eqb_spec q "") as [->|Hq], (String.eqb_spec q' "") as [->|Hq'];
      try done.
    - destruct Hq'. by apply Hempty.
    - destruct Hq. by apply Hempty. }
  rewrite Htruthy. destruct (negb (truthy_opt (Some (JStr q')))); [done|].
  destruct (get_prop t fa) as [a| |]; [|done|done]. cbn [rbind].
  rewrite (lower_includes_case toLowerCase a q q' H).
  destruct (lower_includes toLowerCase a (Some (JStr q'))) as [[]| |]; [done| |done|done].
  cbn [rbind].
  destruct (get_prop t fb) as [b| |]; [|done|done]. cbn [rbind].
  rewrite (lower_includes_case toLowerCase b q q' H).
  destruct (lower_includes toLowerCase b (Some (JStr q'))) as [[]| |]; [done| |done|done].
  cbn [rbind].
  destruct (get_prop t fc) as [c| |]; [|done|done]. cbn [rbind].
  by rewrite (lower_includes_case toLowerCase c q q' H).
Qed.

Lemma array_filter_ext (p p' : value -> result bool) l :
  (forall t, p t = p' t) -> array_filter p l = array_filter p' l.
Proof.
  intros H. induction l as [|x l IH]; [done|]. cbn [array_filter]. by rewrite H, IH.
Qed.

(** The searches do not depend on the case of the query: two queries, both
    empty or both not, that the platform's lower-case mapping takes to the
    same string give the same result (or the same error), whatever that
    mapping is, for every stored collection and all filters. *)
Theorem search_ignores_query_case toLowerCase φ st q q' filters :
  toLowerCase q = toLowerCase q' -> (q = "" <-> q' = "") ->
  outcome (searchTasks toLowerCase φ (Some (JStr q)) filters) st
    = outcome (searchTasks toLowerCase φ (Some (JStr q')) filters) st /\
  outcome (searchObjects toLowerCase φ (Some (JStr q)) filters) st
    = outcome (searchObjects toLowerCase φ (Some (JStr q')) filters) st.
Proof.
  intros H Hempty. rewrite !searchTasks_run, !searchObjects_run. split.
  - apply array_filter_ext. intros t. unfold task_matches.
    by rewrite (matches_query_case toLowerCase _ _ _ q q' t H Hempty).
  - apply array_filter_ext. intros t. unfold object_matches.
    by rewrite (matches_query_case toLowerCase _ _ _ q q' t H Hempty).
Qed.

Lemma search_ignores_query_case_witness :
  outcome (searchTasks ascii_toLowerCase no_faults (Some (JStr "OBJETOS z")) (JObj []))
    populated_state
    = Ok [task_TSK001].
Proof.
  destruct (search_ignores_query_case ascii_toLowerCase no_faults populated_state
              "OBJETOS z" "objetos Z" (JObj []) eq_refl) as [H _].
  - split; discriminate.
  - rewrite H. reflexivity.
Defined.

(** On a collection of objects without [null] entries, a search with a
    truthy type filter and a truthy status filter and no query returns
    exactly the objects whose [tipo] and [status] equal them, in order. *)
Theorem searchObjects_filters toLowerCase φ st os ty s :
  outcome (getObjects φ) st = Ok (JArr os) ->
  Forall (fun o => o <> JNull) os ->
  truthy ty = true -> truthy s = true ->
  outcome (searchObjects toLowerCase φ (Some (JStr ""))
             (JObj [("type", ty); ("status", s)])) st
    = Ok (filter (fun o => strict_eq (field "tipo" o) (Some ty)
                           && strict_eq (field "status" o) (Some s) = true) os).
Proof.
  intros Hos Hnn Hty Hs. apply outcome_getCollection in Hos. subst os.
  rewrite searchObjects_run. apply array_filter_total.
  eapply Forall_impl; [exact Hnn|]. intros t Ht. unfold object_matches.
  rewrite !(matches_filter_object _ _ _ _ Ht). cbn. by rewrite Hty, Hs.
Qed.

Lemma searchObjects_filters_witness :
  outcome (searchObjects ascii_toLowerCase no_faults (Some (JStr ""))
             (JObj [("type", JStr "exit"); ("status", JStr "nao-analisado")]))
    (after (saveObject no_faults object_ZREPORT) populated_state_with_db)
    = Ok [object_ZEXIT01].
Proof.
  rewrite (searchObjects_filters ascii_toLowerCase no_faults _ [object_ZEXIT01; object_ZREPORT]
             (JStr "exit") (JStr "nao-analisado")); try reflexivity.
  repeat constructor; discriminate.
Defined.

(** ** Reading leaves the backends alone *)

Lemma preserves_backends_loadData φ r : preserves backends (loadData φ r).
Proof. intros st. unfold after. by destruct (loadData_run φ r st) as (tr & ->). Qed.

Lemma preserves_backends_getCollection φ r : preserves backends (getCollection φ r).
Proof. intros st. unfold after. by destruct (getCollection_run φ r st) as (tr & ->). Qed.

Lemma preserves_backends_generateTaskId φ : preserves backends (generateTaskId φ).
Proof.
  apply preserves_bind; [apply preserves_backends_getCollection|]. intros xs.
  apply preserves_bind; [apply preserves_lift|]. intros m. apply preserves_ret.
Qed.

(** Loading, the getters, the lookups by id, the searches, the id generation
    and the export change neither the key-value entries nor the object
    stores, whatever fails: they only log. *)
Theorem reading_preserves_backends φ :
  (forall r, preserves backends (loadData φ r)) /\
  (forall r, preserves backends (read φ r)) /\
  (forall id, preserves backends (getTaskById φ id)) /\
  (forall id, preserves backends (getObjectById φ id)) /\
  (forall toLowerCase query filters,
     preserves backends (searchTasks toLowerCase φ query filters)) /\
  (forall toLowerCase query filters,
     preserves backends (searchObjects toLowerCase φ query filters)) /\
  preserves backends (generateTaskId φ) /\
  (forall now, preserves backends (exportData φ now)).
Proof.
  split; [apply preserves_backends_loadData|].
  split.
  { intros r. destruct r; cbn [read];
      first [apply preserves_backends_loadData | apply preserves_backends_getCollection]. }
  split.
  { intros id. apply preserves_bind; [apply preserves_backends_getCollection|].
    intros xs. apply preserves_lift. }
  split.
  { intros id. apply preserves_bind; [apply preserves_backends_getCollection|].
    intros xs. apply preserves_lift. }
  split.
  { intros lower q f. apply preserves_bind; [apply preserves_backends_getCollection|].
    intros xs. apply preserves_lift. }
  split.
  { intros lower q f. apply preserves_bind; [apply preserves_backends_getCollection|].
    intros xs. apply preserves_lift. }
  split.
  { apply preserves_backends_generateTaskId. }
  intros now st. unfold after. by destruct (exportData_run φ now st) as (tr & ->).
Qed.

(** ** Clear-all *)

Lemma remove_keys_run l st :
  for_each_key l (localStorage_removeItem no_faults) st =
    (Ok tt, set_localStorage (fun m => foldl (fun m k => delete k m) m l) st).
Proof.
  revert st. induction l as [|k l IH]; intros st.
  - by destruct st.
  - cbn [for_each_key]. unfold bind at 1. unfold localStorage_removeItem at 1.
    unfold_monad. cbn. rewrite IH. by destruct st.
Qed.

Lemma lookup_foldl_delete_None (m : gmap string text) l k :
  m !! k = None -> foldl (fun m k => delete k m) m l !! k = None.
Proof.
  revert m. induction l as [|k' l IH]; intros m Hm; [done|].
  cbn [foldl]. apply IH. rewrite lookup_delete. by case_decide.
Qed.

Lemma lookup_foldl_delete (m : gmap string text) l k :
  k ∈ l -> foldl (fun m k => delete k m) m l !! k = None.
Proof.
  revert m. induction l as [|k' l IH]; intros m Hin; [by apply elem_of_nil in Hin|].
  cbn [foldl]. apply elem_of_cons in Hin as [->|Hin]; [|by apply IH].
  apply lookup_foldl_delete_None, lookup_delete_eq.
Qed.

Lemma clearStore_run store st stores :
  db st = Some stores -> is_Some (stores !! store) ->
  clearStore no_faults store st = (Ok tt, set_store store [] st).
Proof.
  intros Hdb [recs Hrecs]. destruct st as [ls d tr]. cbn in Hdb. subst d.
  unfold clearStore, db_transaction. unfold_monad. cbn. by rewrite Hrecs.
Qed.

Lemma clearAllData_run st :
  stores_created st ->
  clearAllData no_faults st =
    (Ok (result_object true "Todos os dados foram limpos!"),
     add_effect (Dispatched "dataCleared" None)
       (mkState (foldl (fun m k => delete k m) (localStorage st) all_keys)
                ((fun stores => <["requests" := []]> (<["objects" := []]> (<["tasks" := []]> stores)))
                   <$> db st)
                (trace st))).
Proof.
  intros Hstores. unfold clearAllData, try_catch.
  unfold bind at 1. rewrite remove_keys_run.
  unfold bind at 1, get at 1. unfold has_db. cbn [set_localStorage db].
  destruct st as [ls [stores|] tr]; cbn [localStorage db trace fmap option_fmap option_map].
  - destruct (Hstores stores eq_refl) as (Ht & Ho & Hr).
    cbn [for_each_key]. unfold bind at 1. unfold bind at 1.
    erewrite clearStore_run; [|reflexivity|exact Ht].
    unfold bind at 1.
    erewrite clearStore_run; [|reflexivity|by rewrite lookup_insert_ne].
    unfold bind at 1.
    erewrite clearStore_run; [|reflexivity|by rewrite !lookup_insert_ne].
    reflexivity.
  - reflexivity.
Qed.

(** With no backend failure (and the three object stores there when the
    database is open), [clearAllData] reports success, announces
    [dataCleared], removes all six key-value entries, the theme included,
    and leaves every resource reading as its default, however it is read
    afterwards. *)
Theorem clearAllData_resets_to_defaults st :
  stores_created st ->
  let st' := after (clearAllData no_faults) st in
  outcome (clearAllData no_faults) st = Ok (result_object true "Todos os dados foram limpos!") /\
  (forall k, k ∈ all_keys -> localStorage st' !! k = None) /\
  (forall φ r, outcome (read φ r) st' = Ok (getDefaultData r)) /\
  last (trace st') = Some (Dispatched "dataCleared" None).
Proof.
  intros Hstores st'. subst st'. unfold outcome at 1, after.
  rewrite (clearAllData_run st Hstores). cbn [fst snd].
  split; [done|]. split; [|split].
  - intros k Hk. cbn [add_effect localStorage]. by apply lookup_foldl_delete.
  - intros φ r. rewrite read_run.
    assert (Hkv : keyvalue_answer φ
              (add_effect (Dispatched "dataCleared" None)
                 (mkState (foldl (fun m k => delete k m) (localStorage st) all_keys)
                    ((fun stores => <["requests" := []]> (<["objects" := []]> (<["tasks" := []]> stores)))
                       <$> db st) (trace st))) r = getDefaultData r).
    { unfold keyvalue_answer. cbn [add_effect localStorage].
      rewrite lookup_foldl_delete; [by destruct (φ _)|].
      unfold all_keys. destruct r; apply (bool_decide_unpack _); by vm_compute. }
    assert (Hload : load_view φ
              (add_effect (Dispatched "dataCleared" None)
                 (mkState (foldl (fun m k => delete k m) (localStorage st) all_keys)
                    ((fun stores => <["requests" := []]> (<["objects" := []]> (<["tasks" := []]> stores)))
                       <$> db st) (trace st))) r = getDefaultData r).
    { unfold load_view. rewrite Hkv.
      destruct (indexed_answer _ _ r) as [[|x rest]|] eqn:Hidx; try done.
      unfold indexed_answer in Hidx. cbn [add_effect db] in Hidx.
      destruct r; cbn [is_collection andb store_name] in Hidx; try discriminate Hidx.
      all: destruct (negb _ && negb _); [|done].
      all: destruct (db st) as [stores|]; [|done]; cbn in Hidx.
      all: rewrite ?lookup_insert_eq, ?lookup_insert_ne, ?lookup_insert_eq in Hidx by done.
      all: rewrite ?lookup_insert_ne, ?lookup_insert_eq in Hidx by done.
      all: discriminate Hidx. }
    unfold collection_view. rewrite Hload. by destruct r.
  - cbn [add_effect trace]. apply last_snoc_effect.
Qed.

Lemma stores_created_one_task : stores_created one_task_state.
Proof.
  intros stores Hdb. injection Hdb as <-.
  split; [|split].
  - exists [task_TSK001]. apply lookup_insert_eq.
  - exists []. rewrite lookup_insert_ne by discriminate. apply lookup_insert_eq.
  - exists []. rewrite !lookup_insert_ne by discriminate. apply lookup_insert_eq.
Defined.

Lemma clearAllData_resets_to_defaults_witness :
  outcome (read no_faults tasks) one_task_state = Ok (JArr [task_TSK001]) /\
  outcome (read no_faults tasks) (after (clearAllData no_faults) one_task_state)
    = Ok (JArr []) /\
  localStorage (after (clearAllData no_faults) one_task_state) !! theme_key = None.
Proof.
  destruct (clearAllData_resets_to_defaults one_task_state stores_created_one_task)
    as (_ & Hkeys & H & _).
  split; [reflexivity|]. split; [apply H|].
  apply Hkeys. apply (bool_decide_unpack _). by vm_compute.
Defined.

(** A failing [removeItem] makes [clearAllData] report failure (it does not
    reject), and the object stores are then left as they were. *)
Theorem clearAllData_reports_failure φ st k :
  k ∈ all_keys -> φ (RemoveItem k) = true ->
  (exists message, outcome (clearAllData φ) st = Ok (result_object false message)) /\
  db (after (clearAllData φ) st) = db st.
Proof.
  intros Hk Hfail.
  assert (Hkeys : forall l st0, k ∈ l ->
            exists e st1, for_each_key l (localStorage_removeItem φ) st0 = (Throw e, st1)
                          /\ db st1 = db st0).
  { induction l as [|k' l IH]; intros st0 Hin; [by apply elem_of_nil in Hin|].
    cbn [for_each_key]. unfold bind at 1. unfold localStorage_removeItem at 1.
    unfold_monad. destruct (φ (RemoveItem k')) eqn:Hk'; cbn.
    - eauto.
    - apply elem_of_cons in Hin as [->|Hin]; [congruence|].
      destruct (IH (set_localStorage (delete k') st0) Hin) as (e & st1 & -> & Hdb). eauto. }
  destruct (Hkeys all_keys st Hk) as (e & st1 & Hrun & Hdb).
  assert (Hclear : clearAllData φ st =
            (Ok (result_object false ("Erro ao limpar dados: " +:+ error_message e)),
             add_effect (ConsoleError "Failed to clear data:") st1)).
  { unfold clearAllData, try_catch. unfold bind at 1. by rewrite Hrun. }
  unfold outcome, after. rewrite Hclear. split; [by eexists|done].
Qed.

Lemma clearAllData_reports_failure_witness :
  exists message,
    outcome (clearAllData (fun op => match op with RemoveItem _ => true | _ => false end))
      populated_state_with_db = Ok (result_object false message).
Proof.
  destruct (clearAllData_reports_failure
              (fun op => match op with RemoveItem _ => true | _ => false end)
              populated_state_with_db (keys tasks)) as [H _].
  - apply (bool_decide_unpack _). by vm_compute.
  - reflexivity.
  - exact H.
Defined.

(** ** Import edge cases *)

(** An import of text that is not JSON, or of the document [null], reports
    failure without rejecting, and changes nothing in either backend. *)
Theorem importData_rejected_document φ st jsonData :
  (exists e, import_document jsonData = Throw e) \/ import_document jsonData = Ok JNull ->
  import_failure_result (outcome (importData φ jsonData) st) /\
  backends (after (importData φ jsonData) st) = backends st.
Proof.
  intros H. unfold outcome, after. rewrite importData_unfold.
  unfold try_catch. unfold bind at 1, lift at 1.
  destruct H as [[e ->]| ->].
  - cbn. split; [by eexists|done].
  - assert (Hfirst : import_resource φ JNull profile st = (Throw TypeError, st)) by done.
    unfold all_resources. cbn [import_all]. unfold bind at 1. unfold bind at 1.
    rewrite Hfirst. cbn. split; [by eexists|done].
Qed.

Lemma importData_rejected_document_witness :
  import_failure_result
    (outcome (importData no_faults (StringArg (NotJson "{tasks: oops"))) populated_state) /\
  backends (after (importData no_faults (StringArg (Json JNull))) populated_state)
    = backends populated_state.
Proof.
  split.
  - apply (importData_rejected_document no_faults populated_state). left. by eexists.
  - apply (importData_rejected_document no_faults populated_state). by right.
Defined.

(** ** Saving and loading *)

(** The key-value copy is the fallback: once the key-value write of a save
    has gone through, a load that cannot use the indexed backend (not open,
    failing, or a resource without a store) returns the saved value,
    whatever happened to the IndexedDB half of the save. *)
Theorem keyvalue_copy_is_fallback φ φ' st r data :
  φ (SetItem (keys r)) = false ->
  φ' (GetItem (keys r)) = false ->
  is_collection r = false \/ db st = None \/
  φ' (OpenTransaction (store_name r) false) = true \/
  φ' (StoreGetAll (store_name r)) = true ->
  outcome (loadData φ' r) (after (saveData φ r data) st) = Ok data.
Proof.
  intros Hset Hget Hno. unfold outcome.
  destruct (loadData_run φ' r (after (saveData φ r data) st)) as (tr & ->). cbn [fst].
  f_equal. unfold load_view.
  assert (Hidx : indexed_answer φ' (after (saveData φ r data) st) r = None).
  { unfold indexed_answer. destruct Hno as [-> | [Hdb | [-> | ->]]]; try done.
    - destruct (after_saveData φ r data st) as (_ & Hd & _). rewrite Hd.
      unfold save_view. rewrite Hdb. cbn. by destruct (_ && _).
    - by rewrite andb_false_r.
    - by rewrite andb_false_r. }
  rewrite Hidx. unfold keyvalue_answer. rewrite Hget.
  pose proof (saveData_entry φ r data st) as He. rewrite Hset in He. by rewrite He.
Qed.

Lemma keyvalue_copy_is_fallback_witness :
  outcome (loadData (fun op => match op with StoreGetAll _ => true | _ => false end) tasks)
    (after (saveData (fun op => match op with StoreClear _ => true | _ => false end)
              tasks (JArr [task_TSK001])) initial_state_with_db)
    = Ok (JArr [task_TSK001]).
Proof.
  apply keyvalue_copy_is_fallback; try reflexivity. right. right. by right.
Defined.

Lemma store_after_saveData φ r data st :
  is_collection r = true ->
  φ (OpenTransaction (store_name r) true) = false -> φ (StoreClear (store_name r)) = false ->
  db (after (saveData φ r data) st) ≫= (.!! store_name r)
    = (fun _ => []) <$> (db st ≫= (.!! store_name r)).
Proof.
  intros Hr Hopen Hclear. destruct (after_saveData φ r data st) as (_ & -> & _).
  unfold save_view. destruct (db st) as [stores|]; [|done]. rewrite Hr.
  pose proof (save_indexed_store φ (store_name r) data stores Hopen Hclear) as H.
  by destruct (save_indexed _ _ _ _).
Qed.

(** Saving a list under a collection and reading the collection back gives
    that very list, in its order: the save leaves the object store empty,
    and the list is served from the key-value entry.  The save resolves
    when the list holds a record; the save of the empty list never settles
    when the object store is there. *)
Theorem saveData_then_read_collection φ φ' st r l :
  is_collection r = true ->
  writes_through φ r -> reads_through φ' r ->
  outcome (read φ' r) (after (saveData φ r (JArr l)) st) = Ok (JArr l) /\
  db (after (saveData φ r (JArr l)) st) ≫= (.!! store_name r)
    = (fun _ => []) <$> (db st ≫= (.!! store_name r)) /\
  outcome (saveData φ r (JArr l)) st =
    match l with
    | [] => if has_store st (store_name r) then Pending else Ok tt
    | _ :: _ => Ok tt
    end.
Proof.
  intros Hr Hw Hget. split; [|split].
  - rewrite read_run, Hr. unfold collection_view.
    by rewrite (load_view_after_saveData φ φ' r (JArr l) st Hw Hget).
  - destruct Hw as (_ & Hopen & Hclear). by apply store_after_saveData.
  - rewrite saveData_outcome. unfold never_settles, reaches_store.
    destruct Hw as (_ & -> & ->). rewrite Hr. cbn [andb negb]. rewrite !andb_true_r.
    by destruct l, (has_store st (store_name r)).
Qed.

Lemma saveData_then_read_collection_witness :
  outcome (read no_faults objects)
    (after (saveData no_faults objects (JArr [object_ZREPORT; object_ZEXIT01]))
           one_task_state) = Ok (JArr [object_ZREPORT; object_ZEXIT01]) /\
  outcome (saveData no_faults objects (JArr [object_ZREPORT; object_ZEXIT01]))
    one_task_state = Ok tt /\
  outcome (saveData no_faults objects (JArr [])) one_task_state = Pending.
Proof.
  destruct (saveData_then_read_collection no_faults no_faults one_task_state objects
              [object_ZREPORT; object_ZEXIT01] eq_refl) as (H1 & _ & H2); [repeat split..|].
  destruct (saveData_then_read_collection no_faults no_faults one_task_state objects
              [] eq_refl) as (_ & _ & H3); [repeat split..|].
  split; [exact H1|]. split; [exact H2|exact H3].
Defined.

(** Saving a value that is not an array under a collection (nothing checks
    the shape, so an import can do this) never settles when the object
    store is there, and resolves when it is not; the collection reads as
    empty in the state the save leaves, whatever was stored and however it
    is read. *)
Theorem saveData_non_array_empties_collection φ st r v :
  is_collection r = true -> isArray v = false ->
  outcome (read φ r) (after (saveData no_faults r v) st) = Ok (JArr []) /\
  outcome (saveData no_faults r v) st
    = if has_store st (store_name r) then Pending else Ok tt.
Proof.
  intros Hr Hv. split.
  - rewrite read_run, Hr. unfold collection_view, load_view.
    assert (Hidx : match indexed_answer φ (after (saveData no_faults r v) st) r with
                   | Some (x :: rest) => False
                   | _ => True
                   end).
    { unfold indexed_answer. destruct (_ && _ && _); [|done].
      rewrite (store_after_saveData no_faults r v st Hr eq_refl eq_refl).
      by destruct (db st ≫= (.!! store_name r)). }
    destruct (indexed_answer φ (after (saveData no_faults r v) st) r) as [[|x rest]|];
      try done.
    all: unfold keyvalue_answer; destruct (φ (GetItem (keys r))); [by destruct r|].
    all: pose proof (saveData_entry no_faults r v st) as He; cbn [no_faults] in He; rewrite He.
    all: by destruct v.
  - rewrite saveData_outcome. unfold never_settles, reaches_store. rewrite Hr.
    cbn [no_faults andb negb]. rewrite !andb_true_r.
    assert (has_items v = false) as -> by (by destruct v).
    by destruct (has_store st (store_name r)).
Qed.

Lemma saveData_non_array_empties_collection_witness :
  outcome (read no_faults tasks) one_task_state = Ok (JArr [task_TSK001]) /\
  outcome (read no_faults tasks)
    (after (saveData no_faults tasks (JStr "todo")) one_task_state) = Ok (JArr []) /\
  outcome (saveData no_faults tasks (JStr "todo")) one_task_state = Pending /\
  outcome (saveData no_faults tasks (JStr "todo")) initial_state = Ok tt.
Proof.
  split; [reflexivity|].
  destruct (saveData_non_array_empties_collection no_faults one_task_state tasks (JStr "todo")
              eq_refl eq_refl) as [H1 H2].
  destruct (saveData_non_array_empties_collection no_faults initial_state tasks (JStr "todo")
              eq_refl eq_refl) as [_ H3].
  split; [exact H1|]. split; [exact H2|exact H3].
Defined.

(** ** Export and [validateImportedData] *)

Lemma validateImportedData_complete ff p lt lo :
  assoc "profile" ff = Some p -> assoc "tasks" ff = Some (JArr lt) ->
  assoc "objects" ff = Some (JArr lo) ->
  validateImportedData (JObj ff) = valid_data.
Proof.
  intros Hp Ht Ho. unfold validateImportedData.
  cbn [truthy typeof_object negb orb has_property field List.filter].
  by rewrite Hp, Ht, Ho.
Qed.

(** [validateImportedData] accepts exactly the objects that have a
    [profile] key and arrays under [tasks] and [objects]; everything else
    gets [valid: false] with an error text. *)
Theorem validateImportedData_accepts data :
  (validateImportedData data = valid_data <->
   exists ff lt lo, data = JObj ff /\ is_Some (assoc "profile" ff) /\
                    assoc "tasks" ff = Some (JArr lt) /\
                    assoc "objects" ff = Some (JArr lo)) /\
  (validateImportedData data = valid_data \/
   exists error, validateImportedData data = invalid_data error).
Proof.
  unfold validateImportedData. split.
  - split.
    + destruct data as [| b | n | s | l | ff]; cbn [truthy typeof_object negb orb].
      1: discriminate.
      1: destruct b; discriminate.
      1: destruct (negb (n =? 0)); discriminate.
      1: destruct (negb (String.eqb s "")); discriminate.
      1: cbn; discriminate.
      cbn [has_property field List.filter].
      destruct (assoc "profile" ff) as [p|] eqn:Hp; cbn [negb];
        destruct (assoc "tasks" ff) as [t|] eqn:Ht; cbn [negb];
        destruct (assoc "objects" ff) as [o|] eqn:Ho; cbn [negb length Z.of_nat Z.ltb Z.compare];
        try discriminate.
      cbn [isArray_opt]. destruct t; cbn [isArray negb]; try discriminate.
      destruct o; cbn [isArray negb]; try discriminate.
      intros _. eauto 10.
    + intros (ff & lt & lo & -> & [p Hp] & Ht & Ho).
      by apply (validateImportedData_complete ff p lt lo).
  - repeat match goal with
           | |- context [if ?b then _ else _] => destruct b
           end; eauto.
Qed.

(** Every export is a document that [validateImportedData] accepts, with
    [version] "1.0" and the given export date, whatever state is exported
    and whatever fails. *)
Theorem exported_document_validates φ now st :
  exists doc,
    outcome (exportData φ now) st = Ok (Json doc) /\
    validateImportedData doc = valid_data /\
    field "version" doc = Some (JStr "1.0") /\
    field "exportDate" doc = Some (JStr now).
Proof.
  unfold outcome. destruct (exportData_run φ now st) as (tr & ->). cbn [fst].
  eexists. split; [reflexivity|]. rewrite !collection_view_records.
  split; [|split; reflexivity].
  by eapply validateImportedData_complete.
Qed.

(** ** What an upsert announces *)



(** ** Generated task ids *)

Lemma length_padStart0 n s : (n <= String.length (padStart0 n s))%nat.
Proof.
  unfold padStart0.
  assert (H : forall k, String.length (String.concat "" (List.repeat "0" k) +:+ s)
                        = (k + String.length s)%nat).
  { induction k as [|k IH]; [done|]. rewrite zeros_succ.
    change (String "0" ?a +:+ s) with (String "0" (a +:+ s)). cbn [String.length].
    by rewrite IH. }
  rewrite H. lia.
Qed.

Lemma generated_id_not_in_ids ts :
  Forall valid_record ts -> max_numeric_suffix ts < 2 ^ 53 - 1 ->
  ("TSK" +:+ padStart0 3 (String_of_number (max_numeric_suffix ts + 1))) ∉ ids ts.
Proof.
  intros Hvalid Hbound Hin. pose proof (max_numeric_suffix_nonneg ts) as Hnn.
  unfold ids in Hin. apply list_elem_of_omap in Hin as (t & Hin & Hid).
  assert (Hnum : task_number t = Some (max_numeric_suffix ts + 1)).
  { unfold task_number. rewrite Hid.
    change (startsWith "TSK" ("TSK" +:+ ?x)) with true. cbv iota.
    change (remove_prefix "TSK" ("TSK" +:+ ?x)) with x.
    rewrite parseInt_generated by lia. done. }
  pose proof (task_number_le_max t ts _ Hin Hnum). lia.
Qed.

Lemma generateTaskId_value φ st :
  Forall valid_record (records φ st tasks) ->
  max_numeric_suffix (records φ st tasks) < 2 ^ 53 - 1 ->
  outcome (generateTaskId φ) st =
    Ok ("TSK" +:+ padStart0 3 (String_of_number (max_numeric_suffix (records φ st tasks) + 1))).
Proof.
  intros Hvalid Hbound. rewrite (generateTaskId_run φ st Hvalid).
  pose proof (max_numeric_suffix_nonneg (records φ st tasks)).
  unfold js_add. rewrite round53_small by lia. done.
Qed.

(** The id [generateTaskId] returns has the shape the reducer looks for:
    [TSK] followed by digits only, at least three of them, and [parseInt]
    reads those digits back as the successor of the maximum suffix. *)
Theorem generateTaskId_format φ st ts :
  outcome (getTasks φ) st = Ok (JArr ts) ->
  Forall valid_record ts ->
  max_numeric_suffix ts < 2 ^ 53 - 1 ->
  exists digits,
    outcome (generateTaskId φ) st = Ok ("TSK" +:+ digits) /\
    all_digits digits = true /\ (3 <= String.length digits)%nat /\
    parseInt digits = Some (max_numeric_suffix ts + 1).
Proof.
  intros Hts Hvalid Hbound. apply outcome_getCollection in Hts. subst ts.
  pose proof (max_numeric_suffix_nonneg (records φ st tasks)) as Hnn.
  eexists. split; [by apply generateTaskId_value|].
  destruct (String_of_number_digits (max_numeric_suffix (records φ st tasks) + 1))
    as (Hne & Hd & _); [lia|].
  destruct (padStart0_digits 3 _ Hne Hd) as (_ & Hd' & _).
  split; [done|]. split; [apply length_padStart0|]. apply parseInt_generated. lia.
Qed.

Lemma generateTaskId_format_witness :
  exists digits,
    outcome (generateTaskId no_faults) populated_state = Ok ("TSK" +:+ digits) /\
    all_digits digits = true /\ (3 <= String.length digits)%nat /\
    parseInt digits = Some 2.
Proof.
  destruct (generateTaskId_format no_faults populated_state [task_TSK001])
    as (digits & H1 & H2 & H3 & H4).
  - reflexivity.
  - repeat constructor. by exists "TSK001".
  - vm_compute. reflexivity.
  - exists digits. split; [exact H1|]. split; [exact H2|]. split; [exact H3|].
    rewrite H4. reflexivity.
Defined.

Lemma upsert_list_absent j item l :
  Forall valid_record l -> j ∉ ids l -> upsert_list j item l = l ++ [item].
Proof.
  intros Hl. induction Hl as [|x l [i Hi] Hl IH]; intros Hnotin; [done|].
  rewrite (ids_cons_valid _ _ _ Hi) in Hnotin.
  apply not_elem_of_cons in Hnotin as [Hne Hnotin].
  cbn [upsert_list]. rewrite Hi, decide_False by congruence. cbn. by rewrite IH.
Qed.

(** A task saved under the id that [generateTaskId] has just returned is
    added to the collection: the tasks read afterwards are the tasks that
    were there, in their order, followed by the new one. *)
Theorem generated_id_never_replaces φ φ' st ts id task :
  outcome (getTasks φ) st = Ok (JArr ts) ->
  Forall valid_record ts ->
  max_numeric_suffix ts < 2 ^ 53 - 1 ->
  outcome (generateTaskId φ) st = Ok id ->
  record_id task = Some id ->
  writes_through φ tasks -> reads_through φ' tasks ->
  outcome (getTasks φ')
    (after (saveTask φ task) (after (generateTaskId φ) st)) = Ok (JArr (ts ++ [task])).
Proof.
  intros Hts Hvalid Hbound Hid Htask Hw Hr.
  apply outcome_getCollection in Hts. subst ts.
  rewrite (generateTaskId_value φ st Hvalid Hbound) in Hid. injection Hid as <-.
  set (st1 := after (generateTaskId φ) st).
  assert (Hsame : records φ st1 tasks = records φ st tasks).
  { apply records_resource_state.
    pose proof (preserves_backends_generateTaskId φ st) as Hgen. fold st1 in Hgen.
    unfold backends in Hgen. injection Hgen as Hl Hd. unfold resource_state.
    by rewrite Hl, Hd. }
  unfold getTasks, saveTask. rewrite outcome_getCollection_after.
  assert (Hvalid1 : Forall valid_record (records φ st1 tasks)) by by rewrite Hsame.
  rewrite (records_after_upsert φ φ' tasks "tasksUpdated" task _ st1 Htask Hvalid1 Hw Hr).
  rewrite Hsame. rewrite upsert_list_absent; [done|done|].
  by apply generated_id_not_in_ids.
Qed.

Lemma generated_id_never_replaces_witness :
  outcome (getTasks no_faults)
    (after (saveTask no_faults (JObj [("id", JStr "TSK002"); ("titulo", JStr "Cutover")]))
           (after (generateTaskId no_faults) populated_state))
    = Ok (JArr ([task_TSK001] ++ [JObj [("id", JStr "TSK002"); ("titulo", JStr "Cutover")]])).
Proof.
  apply (generated_id_never_replaces no_faults no_faults populated_state [task_TSK001]
           "TSK002"); try reflexivity.
  - repeat constructor. by exists "TSK001".
  - repeat split.
Defined.

(** ** The object form *)

Lemma find_same_id_absent formData id l :
  record_id formData = Some id -> Forall valid_record l -> id ∉ ids l ->
  array_find (same_id_as formData) l = Ok None.
Proof.
  intros Hid Hl. induction Hl as [|x l [i Hi] Hl IH]; intros Hnotin; [done|].
  rewrite (ids_cons_valid _ _ _ Hi) in Hnotin. apply not_elem_of_cons in Hnotin as [Hne Hnotin].
  cbn [array_find]. rewrite (same_id_as_valid _ _ _ _ Hid Hi). cbn [rbind].
  rewrite bool_decide_eq_false_2 by congruence. by apply IH.
Qed.

Lemma find_same_id_present formData id l :
  record_id formData = Some id -> Forall valid_record l -> id ∈ ids l ->
  exists x, array_find (same_id_as formData) l = Ok (Some x) /\ record_id x = Some id.
Proof.
  intros Hid Hl. induction Hl as [|x l [i Hi] Hl IH]; intros Hin.
  - by apply elem_of_nil in Hin.
  - rewrite (ids_cons_valid _ _ _ Hi) in Hin.
    cbn [array_find]. rewrite (same_id_as_valid _ _ _ _ Hid Hi). cbn [rbind].
    destruct (decide (i = id)) as [->|Hne].
    + rewrite bool_decide_eq_true_2 by done. by exists x.
    + rewrite bool_decide_eq_false_2 by done. apply IH.
      apply elem_of_cons in Hin as [Heq|Hin]; [congruence|done].
Qed.

Lemma truthy_record x i : record_id x = Some i -> truthy x = true.
Proof. by destruct x. Qed.

(** [validateObjectForm] lets a form through exactly when its id is not
    empty, its type is truthy and, unless an object is being edited, no
    current object has the id; it answers [false] with a message
    otherwise.  While an object is edited the ids are not compared. *)
Theorem validateObjectForm_accepts currentEditingObject currentObjects formData id :
  record_id formData = Some id ->
  Forall valid_record currentObjects ->
  (validateObjectForm currentEditingObject currentObjects formData = Ok (true, None) <->
   id <> "" /\ truthy_opt (field "tipo" formData) = true /\
   (truthy_opt currentEditingObject = false -> id ∉ ids currentObjects)) /\
  (validateObjectForm currentEditingObject currentObjects formData = Ok (true, None) \/
   exists message,
     validateObjectForm currentEditingObject currentObjects formData
       = Ok (false, Some message)).
Proof.
  intros Hid Hvalid. unfold validateObjectForm.
  rewrite (record_id_get_prop _ _ Hid). cbn [rbind truthy_opt truthy].
  rewrite get_prop_field by (by destruct formData).
  destruct (String.eqb id "") eqn:Hempty; cbn [negb].
  { apply String.eqb_eq in Hempty. split; [|eauto].
    split; [discriminate|]. by intros (? & _). }
  apply String.eqb_neq in Hempty. cbn [rbind].
  destruct (truthy_opt (field "tipo" formData)) eqn:Htipo; cbn [negb].
  2: { split; [|eauto]. split; [discriminate|]. by intros (_ & ? & _). }
  destruct (truthy_opt currentEditingObject) eqn:Hediting; cbn [negb].
  { split; [|eauto]. split; [|done]. intros _. repeat split; [done|]. discriminate. }
  destruct (decide (id ∈ ids currentObjects)) as [Hin|Hnotin].
  - destruct (find_same_id_present _ _ _ Hid Hvalid Hin) as (x & -> & Hx).
    cbn [rbind truthy_opt]. rewrite (truthy_record _ _ Hx).
    split; [|eauto]. split; [discriminate|]. intros (_ & _ & Hno). by destruct Hno.
  - rewrite (find_same_id_absent _ _ _ Hid Hvalid Hnotin). cbn [rbind truthy_opt].
    split; [|eauto]. split; [|done]. intros _. repeat split; done.
Qed.

Lemma validateObjectForm_accepts_witness :
  (validateObjectForm None [object_ZEXIT01] object_ZEXIT01_form = Ok (true, None) <->
   "ZEXIT01" <> "" /\ truthy_opt (field "tipo" object_ZEXIT01_form) = true /\
   (truthy_opt None = false -> "ZEXIT01" ∉ ids [object_ZEXIT01])) /\
  (validateObjectForm None [object_ZEXIT01] object_ZEXIT01_form = Ok (true, None) \/
   exists message,
     validateObjectForm None [object_ZEXIT01] object_ZEXIT01_form
       = Ok (false, Some message)).
Proof.
  apply (validateObjectForm_accepts None [object_ZEXIT01] object_ZEXIT01_form "ZEXIT01").
  - reflexivity.
  - repeat constructor. by exists "ZEXIT01".
Defined.

(** An object that the form for a new object let through, saved with the
    form's id while the controller's list is the stored collection, is
    added: the objects read afterwards are the stored ones, in their order,
    followed by the new one. *)
Theorem validated_new_object_is_added φ φ' st currentObjects formData object id :
  outcome (getObjects φ) st = Ok (JArr currentObjects) ->
  Forall valid_record currentObjects ->
  record_id formData = Some id -> record_id object = Some id ->
  validateObjectForm (Some JNull) currentObjects formData = Ok (true, None) ->
  writes_through φ objects -> reads_through φ' objects ->
  outcome (getObjects φ') (after (saveObject φ object) st)
    = Ok (JArr (currentObjects ++ [object])).
Proof.
  intros Hcur Hvalid Hform Hobj Hok Hw Hr.
  apply outcome_getCollection in Hcur. subst currentObjects.
  assert (Hnotin : id ∉ ids (records φ st objects)).
  { destruct (decide (id ∈ ids (records φ st objects))) as [Hin|]; [|done].
    revert Hok. unfold validateObjectForm.
    rewrite (record_id_get_prop _ _ Hform). cbn [rbind truthy_opt truthy].
    destruct (negb (negb (String.eqb id ""))); [discriminate|].
    destruct (get_prop formData "tipo") as [tipo| |]; [|discriminate|discriminate].
    cbn [rbind].
    destruct (negb (truthy_opt tipo)); [discriminate|]. cbn [negb].
    destruct (find_same_id_present _ _ _ Hform Hvalid Hin) as (x & -> & Hx).
    cbn [rbind truthy_opt]. by rewrite (truthy_record _ _ Hx). }
  unfold getObjects, saveObject. rewrite outcome_getCollection_after.
  rewrite (records_after_upsert φ φ' objects "objectsUpdated" object _ st Hobj Hvalid Hw Hr).
  by rewrite upsert_list_absent.
Qed.

Lemma validated_new_object_is_added_witness :
  outcome (getObjects no_faults)
    (after (saveObject no_faults object_ZREPORT)
           (after (saveObject no_faults object_ZEXIT01) initial_state))
    = Ok (JArr ([object_ZEXIT01] ++ [object_ZREPORT])).
Proof.
  apply (validated_new_object_is_added no_faults no_faults
           (after (saveObject no_faults object_ZEXIT01) initial_state) [object_ZEXIT01]
           (JObj [("id", JStr "ZREPORT"); ("tipo", JStr "report")]) object_ZREPORT "ZREPORT");
    try reflexivity.
  - repeat constructor. by exists "ZEXIT01".
  - repeat split.
Defined.
